(** * Haplodemo: the division resolver, the settings hub and the scene

    A shallow embedding of [src/itaxotools/haplodemo/scene.py] and of the
    prototype [demo.py].  Python objects that are mutated in place become
    records that are threaded through the functions; a Qt signal becomes the
    list of values it has emitted; an exception becomes a [Raise] result that
    is returned together with the state reached when it was raised. *)

From Stdlib Require Import ZArith QArith Qcanon Ascii String List.
From stdpp Require Import base option list numbers strings gmap.

Local Open Scope string_scope.
Local Open Scope list_scope.

(** ** Python values shared by the modules *)

(** The exceptions the embedded code can raise. *)
Inductive Exn := KeyError | AttributeError.

(** Outcome of a call: a returned value or a raised exception. *)
Inductive result (A : Type) :=
| Return (a : A)
| Raise (e : Exn).
Arguments Return {A} a.
Arguments Raise {A} e.

Module Py.

(** [str.isspace] on the code points below 256. *)
Definition isspace (c : ascii) : bool :=
  let n := nat_of_ascii c in
  (((9 <=? n) && (n <=? 13)) || ((28 <=? n) && (n <=? 32))
   || (n =? 133) || (n =? 160))%nat.

Fixpoint lstrip (s : string) : string :=
  match s with
  | String c s' => if isspace c then lstrip s' else s
  | EmptyString => EmptyString
  end.

Definition rstrip (s : string) : string :=
  String.rev (lstrip (String.rev s)).

(** [s.strip()] *)
Definition strip (s : string) : string := rstrip (lstrip s).

(** [s.startswith(c)] for a one-character prefix. *)
Definition startswith (s : string) (c : ascii) : bool :=
  match s with
  | String c' _ => bool_decide (c' = c)
  | EmptyString => false
  end.

End Py.

(** ** Palettes *)

Module Palette.

(** Modelled from the spec: [palettes.py] is not part of the sources.  A
    palette provides an indexed colour function ([palette[index]]), a
    [default] fallback colour, a [highlight] accent colour and a display
    label. *)
Record t := {
  getitem : nat -> string;
  default : string;
  highlight : string;
  label : string;
}.

End Palette.

(** ** The division resolver *)

Module DivisionListModel.

Record Division := { key : string; color : string }.

(** The [defaultdict] built by [get_color_map]: the dictionary it was
    initialised with.  Its factory is [lambda: self._default_color], a
    closure over the model object and not over the colour: [getitem] below
    therefore takes the model as it is when the lookup happens. *)
Record ColorMap := { cm_dict : gmap string string }.

(** The model object.  [connected] says whether [dataChanged] and
    [modelReset] are connected to [handle_data_changed], which they are once
    [__init__] has returned; [colorMapChanged] is what the signal of that
    name has emitted, oldest first. *)
Record t := {
  _palette : Palette.t;
  _default_color : string;
  _divisions : list Division;
  connected : bool;
  colorMapChanged : list ColorMap;
}.

Definition with_divisions (self : t) (ds : list Division) : t :=
  {| _palette := _palette self; _default_color := _default_color self;
     _divisions := ds; connected := connected self;
     colorMapChanged := colorMapChanged self |}.

Definition with_default_color (self : t) (c : string) : t :=
  {| _palette := _palette self; _default_color := c;
     _divisions := _divisions self; connected := connected self;
     colorMapChanged := colorMapChanged self |}.

(** [self.colorMapChanged.emit(cm)] *)
Definition emit (self : t) (cm : ColorMap) : t :=
  {| _palette := _palette self; _default_color := _default_color self;
     _divisions := _divisions self; connected := connected self;
     colorMapChanged := colorMapChanged self ++ [cm] |}.

(** [{d.key: d.color for d in self._divisions}]: a later division
    overwrites an earlier one that has the same key. *)
Definition dict_of (ds : list Division) : gmap string string :=
  foldl (fun m d => <[key d := color d]> m) ∅ ds.

Definition get_color_map (self : t) : ColorMap :=
  {| cm_dict := dict_of (_divisions self) |}.

(** [cm[k]] on the [defaultdict]: a missing key calls the factory, which
    reads [_default_color] of the model [self], and stores what it got. *)
Definition getitem (self : t) (cm : ColorMap) (k : string) : string * ColorMap :=
  match cm_dict cm !! k with
  | Some c => (c, cm)
  | None =>
      let c := _default_color self in
      (c, {| cm_dict := <[k := c]> (cm_dict cm) |})
  end.

Definition handle_data_changed (self : t) : t :=
  emit self (get_color_map self).

(** [endResetModel()] and [dataChanged.emit(...)] reach
    [handle_data_changed] through the two connections, synchronously. *)
Definition signal (self : t) : t :=
  if connected self then handle_data_changed self else self.

(** [Division(keys[i], palette[i]) for i in range(len(keys))] *)
Definition zip_palette (palette : Palette.t) (keys : list string) : list Division :=
  imap (fun i k => {| key := k; color := Palette.getitem palette i |}) keys.

Definition set_divisions_from_keys (self : t) (keys : list string) : t :=
  let palette := _palette self in
  signal (with_divisions self (zip_palette palette keys)).

(** [for index, division in enumerate(self._divisions):
       division.color = palette[index]] *)
Definition recolor (palette : Palette.t) (ds : list Division) : list Division :=
  imap (fun index division =>
          {| key := key division; color := Palette.getitem palette index |}) ds.

Definition set_palette (self : t) (palette : Palette.t) : t :=
  let self := with_default_color self (Palette.default palette) in
  signal (with_divisions self (recolor palette (_divisions self))).

(** [__init__(names, palette)]: the two calls come before the two
    [connect]s. *)
Definition init (names : list string) (palette : Palette.t) : t :=
  let self := {| _palette := palette; _default_color := Palette.default palette;
                 _divisions := []; connected := false;
                 colorMapChanged := [] |} in
  let self := set_divisions_from_keys self names in
  let self := set_palette self palette in
  {| _palette := _palette self; _default_color := _default_color self;
     _divisions := _divisions self; connected := true;
     colorMapChanged := colorMapChanged self |}.

Definition rowCount (self : t) : Z := Z.of_nat (length (_divisions self)).

(** A [QModelIndex], as far as [setData] looks at it. *)
Record QModelIndex := { isValid : bool; row : Z }.

Inductive Role := DisplayRole | EditRole | DecorationRole | UserRole.

(** [index.isValid() and 0 <= index.row() < self.rowCount()] *)
Definition index_ok (self : t) (index : QModelIndex) : bool :=
  isValid index && bool_decide (0 ≤ row index < rowCount self)%Z.

(** The colour [setData] validates and stores: the stripped value, with
    [#] in front when it does not start with one. *)
Definition normalize (value : string) : string :=
  let color := Py.strip value in
  if Py.startswith color "#" then color else String "#" color.

(** [self._divisions[i].color = color] *)
Definition set_color (ds : list Division) (i : nat) (c : string) : list Division :=
  alter (fun d => {| key := key d; color := c |}) i ds.

Section SetData.

(** [QtGui.QColor.isValidColor], a function of Qt. *)
Variable isValidColor : string -> bool.

Definition setData (self : t) (index : QModelIndex) (value : string)
    (role : Role) : bool * t :=
  if negb (index_ok self index) then (false, self)
  else
    match role with
    | EditRole =>
        let color := normalize value in
        if negb (isValidColor color) then (false, self)
        else
          let self :=
            with_divisions self
              (set_color (_divisions self) (Z.to_nat (row index)) color) in
          (true, signal self)
    | _ => (false, self)
    end.

(** What [data] returns: [None], a string, or the 16 by 16 icon filled with
    [QColor(color)]. *)
Inductive QVariant :=
| VNone
| VStr (s : string)
| VIcon (color : string).

Definition data (self : t) (index : QModelIndex) (role : Role) : QVariant :=
  if negb (index_ok self index) then VNone
  else
    match _divisions self !! Z.to_nat (row index) with
    | None => VNone
    | Some d =>
        let key := key d in
        let color := color d in
        match role with
        | DisplayRole => VStr key
        | EditRole => VStr color
        | DecorationRole => VIcon color
        | _ => VNone
        end
    end.

(** The calls that change a model once it is built. *)
Inductive Call :=
| call_set_divisions_from_keys (keys : list string)
| call_set_palette (palette : Palette.t)
| call_setData (index : QModelIndex) (value : string) (role : Role).

Definition do_call (self : t) (c : Call) : t :=
  match c with
  | call_set_divisions_from_keys keys => set_divisions_from_keys self keys
  | call_set_palette palette => set_palette self palette
  | call_setData index value role => snd (setData self index value role)
  end.

(** A sequence of calls, first to last. *)
Definition do_calls (self : t) (cs : list Call) : t := foldl do_call self cs.

End SetData.

End DivisionListModel.

(** Qt's rule for a colour name that starts with [#]: the rest is 3, 6, 8, 9
    or 12 hexadecimal digits.  (Names without [#] are looked up in Qt's table
    of SVG colour names, which is not modelled: [setData] only ever asks
    about names that start with [#].) *)
Module QColor.

Definition is_hex (c : ascii) : bool :=
  let n := nat_of_ascii c in
  (((48 <=? n) && (n <=? 57)) || ((65 <=? n) && (n <=? 70))
   || ((97 <=? n) && (n <=? 102)))%nat.

Fixpoint all_hex (s : string) : bool :=
  match s with
  | String c s' => is_hex c && all_hex s'
  | EmptyString => true
  end.

Definition isValidColor (name : string) : bool :=
  match name with
  | String "#" digits =>
      let n := String.length digits in
      all_hex digits
      && ((n =? 3) || (n =? 6) || (n =? 8) || (n =? 9) || (n =? 12))%nat
  | _ => false
  end.

End QColor.

(** ** The settings hub *)

Module Settings.

(** The properties of [Settings] that the scene and the resolver read.  The
    radius coefficients and the label templates are floats and strings that
    no operation below looks at. *)
Record t := {
  palette : Palette.t;
  divisions : DivisionListModel.t;
  highlight_color : string;
  rotational_movement : bool;
  recursive_movement : bool;
  label_movement : bool;
}.

Definition with_palette (self : t) (p : Palette.t) : t :=
  {| palette := p; divisions := divisions self;
     highlight_color := highlight_color self;
     rotational_movement := rotational_movement self;
     recursive_movement := recursive_movement self;
     label_movement := label_movement self |}.

Definition with_divisions (self : t) (d : DivisionListModel.t) : t :=
  {| palette := palette self; divisions := d;
     highlight_color := highlight_color self;
     rotational_movement := rotational_movement self;
     recursive_movement := recursive_movement self;
     label_movement := label_movement self |}.

(** A write to the [highlight_color] property. *)
Definition set_highlight_color (self : t) (c : string) : t :=
  {| palette := palette self; divisions := divisions self;
     highlight_color := c;
     rotational_movement := rotational_movement self;
     recursive_movement := recursive_movement self;
     label_movement := label_movement self |}.

(** A write to the [label_movement] property. *)
Definition set_label_movement (self : t) (b : bool) : t :=
  {| palette := palette self; divisions := divisions self;
     highlight_color := highlight_color self;
     rotational_movement := rotational_movement self;
     recursive_movement := recursive_movement self;
     label_movement := b |}.

(** The two slots [__init__] binds to the [palette] property, in the order
    of the two [bind] calls:
    [bind(properties.palette, divisions.set_palette)] and
    [bind(properties.palette, properties.highlight_color, lambda x: x.highlight)]. *)
Definition bound_set_palette (self : t) (x : Palette.t) : t :=
  with_divisions self (DivisionListModel.set_palette (divisions self) x).

Definition bound_highlight (self : t) (x : Palette.t) : t :=
  set_highlight_color self ((fun x => Palette.highlight x) x).

(** Modelled from the spec: a write to the [palette] property.  The
    property objects and the binder are those of the bindings library, which
    is not part of the sources; its contract is publish-on-write: the value
    is stored and every slot bound to the property is called, in
    subscription order, before the setter returns. *)
Definition set_palette (self : t) (p : Palette.t) : t :=
  let self := with_palette self p in
  let self := bound_set_palette self p in
  bound_highlight self p.

End Settings.

(** ** The graphics scene *)

Module GraphicsScene.

(** The classes of [items.py] the scene tells apart with [isinstance]. *)
Inductive ItemClass := Vertex | Node | Label | Edge | BezierCurve.

(** A reference to a graphical item: the object's identity and its class. *)
Record Item := { item_id : nat; item_class : ItemClass }.

#[global] Instance ItemClass_eq_dec : EqDecision ItemClass.
Proof. solve_decision. Defined.

#[global] Instance Item_eq_dec : EqDecision Item.
Proof. solve_decision. Defined.

(** [isinstance(item, Vertex)]: a [Node] is a [Vertex]. *)
Definition isinstance_Vertex (item : Item) : bool :=
  match item_class item with
  | Vertex | Node => true
  | _ => false
  end.

Definition isinstance_Label (item : Item) : bool :=
  match item_class item with
  | Label => true
  | _ => false
  end.

Definition isinstance_Edge (item : Item) : bool :=
  match item_class item with
  | Edge => true
  | _ => false
  end.

(** Modelled from the spec: [EdgeStyle] of [items.py], the rendering styles
    of an edge. *)
Inductive EdgeStyle :=
  Bubbles | Bars | Plain | DotsWithText | Collapsed | PlainWithText.

#[global] Instance EdgeStyle_eq_dec : EqDecision EdgeStyle.
Proof. solve_decision. Defined.

(** Modelled from the spec: the attributes of an [Edge] object the scene
    reads and writes.  [style] is [None] until [set_style] is called. *)
Record EdgeObj := {
  node1 : Item;
  node2 : Item;
  segments : Z;
  style : option EdgeStyle;
}.

(** Modelled from the spec: [Edge.set_style] of [items.py] stores the
    rendering style. *)
Definition set_style (e : EdgeObj) (s : EdgeStyle) : EdgeObj :=
  {| node1 := node1 e; node2 := node2 e; segments := segments e;
     style := Some s |}.

Record QPointF := { x : Qc; y : Qc }.

Inductive MouseButton := NoButton | LeftButton | RightButton | MiddleButton.

#[global] Instance MouseButton_eq_dec : EqDecision MouseButton.
Proof. solve_decision. Defined.

Record MouseEvent := {
  button : MouseButton;
  (** [event.buttons()]: the buttons held down *)
  buttons : list MouseButton;
  scenePos : QPointF;
}.

(** The handlers of an item the scene calls; they are methods of [items.py]
    and Qt, and a call is recorded. *)
Inductive Handler :=
| hoverEnterEvent
| hoverMoveEvent
| hoverLeaveEvent
| item_mousePressEvent
| item_mouseReleaseEvent
| item_mouseDoubleClickEvent
| item_mouseMoveEvent.

(** What a binding made by the scene listens to. *)
Inductive Source :=
| colorMapChanged
| prop_rotational_movement
| prop_recursive_movement
| prop_label_movement
| prop_highlight_color.

Inductive Slot :=
| update_colors
| set_rotational_setting
| set_recursive_setting
| set_highlight_color
| label_set_locked
| label_set_highlight_color.

(** One [self.binder.bind(source, item.slot, proxy)]; [negated] stands for
    the proxy [lambda x: not x]. *)
Record Binding := {
  source : Source;
  target : Item;
  slot : Slot;
  negated : bool;
}.

(** The child adjacency kept by the vertices: parent id to the
    [(child, edge)] pairs it owns. *)
Abbreviation Children := (gmap nat (list (Item * Item))).

Record t := {
  settings : Settings.t;
  hovered_item : option Item;
  binder : list Binding;
  (** Qt's side of the scene: the items added, topmost first, and the item
      that grabbed the mouse *)
  items : list Item;
  mouseGrabberItem : option Item;
  (** the objects of [items.py] *)
  edge_objs : gmap nat EdgeObj;
  children : Children;
  (** the handler calls made so far, oldest first *)
  handled : list (Item * Handler);
  (** the next fresh object identity *)
  next_id : nat;
}.

Definition with_hovered_item (self : t) (h : option Item) : t :=
  {| settings := settings self; hovered_item := h; binder := binder self;
     items := items self; mouseGrabberItem := mouseGrabberItem self;
     edge_objs := edge_objs self; children := children self;
     handled := handled self; next_id := next_id self |}.

Definition with_binder (self : t) (b : list Binding) : t :=
  {| settings := settings self; hovered_item := hovered_item self; binder := b;
     items := items self; mouseGrabberItem := mouseGrabberItem self;
     edge_objs := edge_objs self; children := children self;
     handled := handled self; next_id := next_id self |}.

Definition with_items (self : t) (l : list Item) : t :=
  {| settings := settings self; hovered_item := hovered_item self;
     binder := binder self;
     items := l; mouseGrabberItem := mouseGrabberItem self;
     edge_objs := edge_objs self; children := children self;
     handled := handled self; next_id := next_id self |}.

Definition with_mouseGrabberItem (self : t) (g : option Item) : t :=
  {| settings := settings self; hovered_item := hovered_item self;
     binder := binder self;
     items := items self; mouseGrabberItem := g;
     edge_objs := edge_objs self; children := children self;
     handled := handled self; next_id := next_id self |}.

Definition with_edge_objs (self : t) (e : gmap nat EdgeObj) : t :=
  {| settings := settings self; hovered_item := hovered_item self;
     binder := binder self;
     items := items self; mouseGrabberItem := mouseGrabberItem self;
     edge_objs := e; children := children self;
     handled := handled self; next_id := next_id self |}.

Definition with_children (self : t) (c : Children) : t :=
  {| settings := settings self; hovered_item := hovered_item self;
     binder := binder self;
     items := items self; mouseGrabberItem := mouseGrabberItem self;
     edge_objs := edge_objs self; children := c;
     handled := handled self; next_id := next_id self |}.

Definition with_next_id (self : t) (n : nat) : t :=
  {| settings := settings self; hovered_item := hovered_item self;
     binder := binder self;
     items := items self; mouseGrabberItem := mouseGrabberItem self;
     edge_objs := edge_objs self; children := children self;
     handled := handled self; next_id := n |}.

(** [item.handler(event)] *)
Definition call (self : t) (item : Item) (h : Handler) : t :=
  {| settings := settings self; hovered_item := hovered_item self;
     binder := binder self;
     items := items self; mouseGrabberItem := mouseGrabberItem self;
     edge_objs := edge_objs self; children := children self;
     handled := handled self ++ [(item, h)]; next_id := next_id self |}.

(** [__init__(settings)] *)
Definition init (settings : Settings.t) : t :=
  {| settings := settings; hovered_item := None; binder := [];
     items := []; mouseGrabberItem := None;
     edge_objs := ∅; children := ∅; handled := []; next_id := 0 |}.

(** A distance as the loop compares it: [float('inf')], or the value of
    [distanceToLine], a float that is taken here as an exact rational (no
    rounding, no NaN). *)
Inductive Distance := Finite (d : Qc) | inf.

(** [distance < closest_edge_distance] *)
Definition lt (distance : Qc) (closest : Distance) : bool :=
  match closest with
  | inf => true
  | Finite c => bool_decide (distance < c)%Qc
  end.

Section HitTest.

(** [QGraphicsScene.items(pos)]: the items of the scene whose shape contains
    [pos], topmost first. *)
Variable items_at : list Item -> QPointF -> list Item.

(** [point.distanceToLine(p1, unit)] for the line of the edge [item]: the
    distance Qt computes from [point] to the line through the mapped first
    endpoint with the direction of the edge's line. *)
Variable distanceToLine : QPointF -> Item -> Qc.

(** The [for item in super().items(pos)] loop with what follows it. *)
Fixpoint getItemAtPos_loop (point : QPointF) (ignore_edges ignore_labels : bool)
    (closest_edge_item : option Item) (closest_edge_distance : Distance)
    (l : list Item) : option Item :=
  match l with
  | [] => closest_edge_item
  | item :: l =>
      if isinstance_Vertex item then Some item
      else if isinstance_Label item && negb ignore_labels then Some item
      else if isinstance_Edge item && negb ignore_edges then
        let distance := distanceToLine point item in
        if lt distance closest_edge_distance
        then getItemAtPos_loop point ignore_edges ignore_labels
               (Some item) (Finite distance) l
        else getItemAtPos_loop point ignore_edges ignore_labels
               closest_edge_item closest_edge_distance l
      else getItemAtPos_loop point ignore_edges ignore_labels
             closest_edge_item closest_edge_distance l
  end.

Definition getItemAtPos (self : t) (pos : QPointF) (ignore_edges : bool)
    (ignore_labels : option bool) : option Item :=
  let ignore_labels :=
    match ignore_labels with
    | None => negb (Settings.label_movement (settings self))
    | Some b => b
    end in
  let point := pos in
  getItemAtPos_loop point ignore_edges ignore_labels None inf
    (items_at (items self) pos).

(** An item the loop returns as soon as it meets it. *)
Definition returned_at_once (ignore_labels : bool) (item : Item) : bool :=
  isinstance_Vertex item || (isinstance_Label item && negb ignore_labels).

(** The edge [e] at index [k] of [l] is a nearest edge of [l], and the
    first of the nearest ones. *)
Definition nearest_edge (point : QPointF) (l : list Item) (k : nat) (e : Item) : Prop :=
  l !! k = Some e /\ isinstance_Edge e = true
  /\ forall j e', l !! j = Some e' -> isinstance_Edge e' = true ->
       (distanceToLine point e <= distanceToLine point e')%Qc
       /\ (j < k -> (distanceToLine point e < distanceToLine point e')%Qc).

Definition mouseLeaveEvent (self : t) : t :=
  match hovered_item self with
  | Some item => with_hovered_item (call self item hoverLeaveEvent) None
  | None => self
  end.

(** [mouseMoveEvent]; with a grabber or a button held, Qt's own handler
    sends the move to the grabber. *)
Definition mouseMoveEvent (self : t) (event : MouseEvent) : t :=
  match mouseGrabberItem self, buttons event with
  | Some g, _ => call self g item_mouseMoveEvent
  | None, _ :: _ => self
  | None, [] =>
      let item := getItemAtPos self (scenePos event) false None in
      match hovered_item self with
      | Some h =>
          if bool_decide (item = Some h) then call self h hoverMoveEvent
          else
            let self := call self h hoverLeaveEvent in
            let self := with_hovered_item self item in
            match item with
            | Some i => call self i hoverEnterEvent
            | None => self
            end
      | None =>
          let self := with_hovered_item self item in
          match item with
          | Some i => call self i hoverEnterEvent
          | None => self
          end
      end
  end.

Definition mousePressEvent (self : t) (event : MouseEvent) : t :=
  let self :=
    if bool_decide (button event = LeftButton) then
      match getItemAtPos self (scenePos event) true None with
      | Some item =>
          let self := call self item item_mousePressEvent in
          with_mouseGrabberItem self (Some item)
      | None => self
      end
    else self in
  mouseMoveEvent self event.

Definition mouseReleaseEvent (self : t) (event : MouseEvent) : t :=
  let self :=
    if bool_decide (button event = LeftButton) then
      match mouseGrabberItem self with
      | Some item =>
          let self := call self item item_mouseReleaseEvent in
          with_mouseGrabberItem self None
      | None => self
      end
    else self in
  mouseMoveEvent self event.

Definition mouseDoubleClickEvent (self : t) (event : MouseEvent) : t :=
  if bool_decide (button event = LeftButton) then
    match getItemAtPos self (scenePos event) false None with
    | Some item =>
        let self := call self item item_mouseDoubleClickEvent in
        call self item item_mouseReleaseEvent
    | None => self
    end
  else self.

(** The scene events Qt delivers: [event] handles [GraphicsSceneLeave]
    itself and hands every event on to [super().event], which calls the
    handler of its type. *)
Inductive Event :=
| GraphicsSceneMouseMove (e : MouseEvent)
| GraphicsSceneMousePress (e : MouseEvent)
| GraphicsSceneMouseRelease (e : MouseEvent)
| GraphicsSceneMouseDoubleClick (e : MouseEvent)
| GraphicsSceneLeave.

Definition event (self : t) (e : Event) : t :=
  match e with
  | GraphicsSceneMouseMove e => mouseMoveEvent self e
  | GraphicsSceneMousePress e => mousePressEvent self e
  | GraphicsSceneMouseRelease e => mouseReleaseEvent self e
  | GraphicsSceneMouseDoubleClick e => mouseDoubleClickEvent self e
  | GraphicsSceneLeave => mouseLeaveEvent self
  end.

(** A sequence of events, first to last. *)
Definition events (self : t) (es : list Event) : t := foldl event self es.

End HitTest.

(** Reading the hover calls of a log: [Some cur] when every
    [hoverEnterEvent] came with no item entered, every [hoverMoveEvent] and
    [hoverLeaveEvent] went to the item entered, and [cur] is the item
    entered and not left at the end; [None] when a call broke that. *)
Definition hover_step (st : option (option Item)) (c : Item * Handler)
    : option (option Item) :=
  match st with
  | None => None
  | Some cur =>
      match c.2 with
      | hoverEnterEvent =>
          match cur with
          | None => Some (Some c.1)
          | Some _ => None
          end
      | hoverMoveEvent => if bool_decide (cur = Some c.1) then Some cur else None
      | hoverLeaveEvent => if bool_decide (cur = Some c.1) then Some None else None
      | _ => Some cur
      end
  end.

Definition hover_of (log : list (Item * Handler)) : option (option Item) :=
  foldl hover_step (Some None) log.

(** The hover calls of the scene's log read well and leave [hovered_item]
    as the item entered. *)
Definition hover_ok (self : t) : Prop :=
  hover_of (handled self) = Some (hovered_item self).

(** [Class(...)]: a new object of the class, with a fresh identity. *)
Definition new (self : t) (cls : ItemClass) : Item * t :=
  ({| item_id := next_id self; item_class := cls |},
   with_next_id self (S (next_id self))).

(** [self.binder.bind(...)], one entry per call, in the order of the calls. *)
Definition bind (self : t) (bs : list Binding) : t :=
  with_binder self (binder self ++ bs).

Definition vertex_bindings (item : Item) : list Binding :=
  [ {| source := prop_rotational_movement; target := item;
       slot := set_rotational_setting; negated := false |};
    {| source := prop_recursive_movement; target := item;
       slot := set_recursive_setting; negated := false |};
    {| source := prop_highlight_color; target := item;
       slot := set_highlight_color; negated := false |} ].

Definition node_bindings (item : Item) : list Binding :=
  [ {| source := colorMapChanged; target := item;
       slot := update_colors; negated := false |};
    {| source := prop_rotational_movement; target := item;
       slot := set_rotational_setting; negated := false |};
    {| source := prop_recursive_movement; target := item;
       slot := set_recursive_setting; negated := false |};
    {| source := prop_label_movement; target := item;
       slot := label_set_locked; negated := true |};
    {| source := prop_highlight_color; target := item;
       slot := label_set_highlight_color; negated := false |};
    {| source := prop_highlight_color; target := item;
       slot := set_highlight_color; negated := false |} ].

Definition edge_bindings (item : Item) : list Binding :=
  [ {| source := prop_highlight_color; target := item;
       slot := set_highlight_color; negated := false |};
    {| source := prop_label_movement; target := item;
       slot := label_set_locked; negated := true |};
    {| source := prop_highlight_color; target := item;
       slot := label_set_highlight_color; negated := false |} ].

Definition create_vertex (self : t) : Item * t :=
  let '(item, self) := new self Vertex in
  (item, bind self (vertex_bindings item)).

Definition create_node (self : t) : Item * t :=
  let '(item, self) := new self Node in
  (item, bind self (node_bindings item)).

(** [create_edge(parent, child, segments)]: the new [Edge] object keeps its
    two ends and its segment count. *)
Definition create_edge (self : t) (parent child : Item) (segments : Z)
    : Item * t :=
  let '(item, self) := new self Edge in
  let self :=
    with_edge_objs self
      (<[item_id item := {| node1 := parent; node2 := child;
                            segments := segments; style := None |}]>
         (edge_objs self)) in
  (item, bind self (edge_bindings item)).

(** [QGraphicsScene.addItem]: an item that is in the scene already is left
    where it is; a new one goes on top. *)
Definition addItem (self : t) (item : Item) : t :=
  if bool_decide (item ∈ items self) then self
  else with_items self (item :: items self).

Section AddChild.

(** [parent.addChild(child, edge)], a method of [items.py]: it works on the
    child adjacency of the vertices and may raise. *)
Variable Vertex_addChild : Item -> Item -> Item -> Children -> result Children.

Definition add_child (self : t) (parent child : Item) (segments : Z)
    : result unit * t :=
  let '(edge, self) := create_edge self parent child segments in
  match Vertex_addChild parent child edge (children self) with
  | Raise e => (Raise e, self)
  | Return c =>
      let self := with_children self c in
      let self := addItem self edge in
      let self := addItem self child in
      (Return tt, self)
  end.

(** [for y in range(dy): nodey = self.create_node(...);
     self.add_child(nodex, nodey)]; the value of [y] only enters the
    position and the name of the node. *)
Fixpoint add_children (dy : nat) (self : t) (nodex : Item) : result unit * t :=
  match dy with
  | O => (Return tt, self)
  | S dy =>
      let '(nodey, self) := create_node self in
      match add_child self nodex nodey 1 with
      | (Raise e, self) => (Raise e, self)
      | (Return _, self) => add_children dy self nodex
      end
  end.

(** The [for x in range(dx)] loop of [addManyNodes]. *)
Fixpoint addManyNodes_loop (dx dy : nat) (self : t) : result unit * t :=
  match dx with
  | O => (Return tt, self)
  | S dx =>
      let '(nodex, self) := create_node self in
      let self := addItem self nodex in
      match add_children dy self nodex with
      | (Raise e, self) => (Raise e, self)
      | (Return _, self) => addManyNodes_loop dx dy self
      end
  end.

(** [addManyNodes(dx, dy)]; [range] of a negative number is empty. *)
Definition addManyNodes (self : t) (dx dy : Z) : result unit * t :=
  addManyNodes_loop (Z.to_nat dx) (Z.to_nat dy) self.

End AddChild.

(** Every item of the scene was created before the next identity. *)
Definition fresh (self : t) : Prop :=
  forall i, i ∈ items self -> item_id i < next_id self.

(** Modelled from the spec: [Vertex.addChild] of [items.py] is not part of
    the sources.  The edge is registered under the parent's child adjacency:
    the pair [(child, edge)] joins the pairs the parent owns. *)
Definition Vertex_addChild (parent child edge : Item) (c : Children)
    : result Children :=
  Return (<[item_id parent := (child, edge) :: default [] (c !! item_id parent)]> c).

(** Whether [child] is among the children [parent] owns. *)
Definition owns (c : Children) (parent child : Item) : bool :=
  bool_decide (child ∈ (default [] (c !! item_id parent)).*1).

(** [clear()]: Qt removes every item, and the bindings are released. *)
Definition clear (self : t) : t :=
  with_binder (with_mouseGrabberItem (with_items self []) None) [].

(** [{Bubbles: DotsWithText, Bars: Collapsed, Plain: PlainWithText}[style_default]];
    [None] is the [KeyError]. *)
Definition style_cutoff (style_default : EdgeStyle) : option EdgeStyle :=
  match style_default with
  | Bubbles => Some DotsWithText
  | Bars => Some Collapsed
  | Plain => Some PlainWithText
  | _ => None
  end.

(** [if not cutoff: cutoff = float('inf')]; [None] is the infinity. *)
Definition cutoff_or_inf (cutoff : Z) : option Z :=
  if bool_decide (cutoff = 0%Z) then None else Some cutoff.

(** [edge.segments <= cutoff] *)
Definition le_cutoff (segments : Z) (cutoff : option Z) : bool :=
  match cutoff with
  | None => true
  | Some c => bool_decide (segments ≤ c)%Z
  end.

(** [style = style_default if edge.segments <= cutoff else style_cutoff;
     edge.set_style(style)] on the edge object. *)
Definition restyle (style_default style_cutoff : EdgeStyle) (cutoff : option Z)
    (e : EdgeObj) : EdgeObj :=
  let style :=
    if le_cutoff (segments e) cutoff then style_default else style_cutoff in
  set_style e style.

(** The body of [for edge in edges]. *)
Definition style_edge (style_default style_cutoff : EdgeStyle)
    (cutoff : option Z) (self : t) (edge : Item) : t :=
  with_edge_objs self
    (alter (restyle style_default style_cutoff cutoff)
       (item_id edge) (edge_objs self)).

Definition styleEdges (self : t) (style_default : EdgeStyle) (cutoff : Z)
    : result unit * t :=
  let cutoff := cutoff_or_inf cutoff in
  match style_cutoff style_default with
  | None => (Raise KeyError, self)
  | Some style_cutoff =>
      let edges := List.filter isinstance_Edge (items self) in
      (Return tt, foldl (style_edge style_default style_cutoff cutoff) self edges)
  end.

End GraphicsScene.

(** ** The view and its exports *)

Module GraphicsView.

Inductive Surface := Svg | Pdf | Png.

(** One [self.render(painter)]: the surface, the file, and the transient
    state of the scene Qt painted. *)
Record Rendering := {
  surface : Surface;
  file : string;
  painted_hovered : option GraphicsScene.Item;
  painted_grabber : option GraphicsScene.Item;
}.

Record t := {
  scene : GraphicsScene.t;
  rendered : list Rendering;
}.

Definition clear_mouse (self : t) : t :=
  {| scene := GraphicsScene.mouseLeaveEvent (scene self);
     rendered := rendered self |}.

(** [painter.begin(device); self.render(painter); painter.end()] *)
Definition render (self : t) (device : Surface) (f : string) : t :=
  {| scene := scene self;
     rendered := rendered self ++
       [ {| surface := device; file := f;
            painted_hovered := GraphicsScene.hovered_item (scene self);
            painted_grabber := GraphicsScene.mouseGrabberItem (scene self) |} ] |}.

Definition export_svg (self : t) (f : string) : t :=
  let self := clear_mouse self in
  render self Svg f.

Definition export_pdf (self : t) (f : string) : t :=
  let self := clear_mouse self in
  render self Pdf f.

Definition export_png (self : t) (f : string) : t :=
  let self := clear_mouse self in
  render self Png f.

End GraphicsView.

(** ** The scene of the prototype, [demo.py] *)

Module Demo.

(** The classes of [items.py] and [items_new.py] the prototype tells apart,
    and [Edge], the class of the values of a vertex's [edges] dictionary. *)
Inductive ItemClass :=
| Vertex | Node | Label | Block | BezierCurve
| VertexNew | NodeNew | EdgeNew | LabelNew
| Edge.

Record Item := { item_id : nat; item_class : ItemClass }.

#[global] Instance ItemClass_eq_dec : EqDecision ItemClass.
Proof. solve_decision. Defined.

#[global] Instance Item_eq_dec : EqDecision Item.
Proof. solve_decision. Defined.

(** [isinstance(item, Vertex)]: a [Node] is a [Vertex]. *)
Definition isinstance_Vertex (item : Item) : bool :=
  match item_class item with
  | Vertex | Node => true
  | _ => false
  end.

(** [isinstance(item, VertexNew)]: a [NodeNew] is a [VertexNew]. *)
Definition isinstance_VertexNew (item : Item) : bool :=
  match item_class item with
  | VertexNew | NodeNew => true
  | _ => false
  end.

Definition isinstance_Node (item : Item) : bool :=
  match item_class item with
  | Node => true
  | _ => false
  end.

(** [isinstance(item, Label) or isinstance(item, LabelNew)] *)
Definition isinstance_Label_or_LabelNew (item : Item) : bool :=
  match item_class item with
  | Label | LabelNew => true
  | _ => false
  end.

(** The state flags of the items. *)
Inductive Flag := state_hovered | state_pressed | state_highlighted.

#[global] Instance Flag_eq_dec : EqDecision Flag.
Proof. solve_decision. Defined.

Record t := {
  hovered_item : option Item;
  pressed_item : option Item;
  lighlighted_edge : option Item;
  (** Qt's [item.parentItem()] *)
  parentItem : gmap nat Item;
  (** [vertex.edges]: for a vertex, the edge of each of its children *)
  edges : gmap nat (gmap nat Item);
  (** [node.label] *)
  label : gmap nat Item;
  (** the flags assigned so far: [(item, flag)] to its last value *)
  flags : list (nat * Flag * bool);
}.

(** [__init__]; the item tree is what the [add...] methods built. *)
Definition init (parentItem : gmap nat Item) (edges : gmap nat (gmap nat Item))
    (label : gmap nat Item) : t :=
  {| hovered_item := None; pressed_item := None; lighlighted_edge := None;
     parentItem := parentItem; edges := edges; label := label; flags := [] |}.

(** The state-and-exception monad of the event handlers. *)
Definition M (A : Type) : Type := t -> result A * t.

Definition ret {A} (a : A) : M A := fun s => (Return a, s).

Definition raise {A} (e : Exn) : M A := fun s => (Raise e, s).

Definition bind {A B} (c : M A) (k : A -> M B) : M B :=
  fun s =>
    match c s with
    | (Return a, s) => k a s
    | (Raise e, s) => (Raise e, s)
    end.

Notation "x <~ c ;; k" := (bind c (fun x => k))
  (at level 100, c at next level, right associativity).
Notation "c ;;; k" := (bind c (fun _ => k))
  (at level 100, right associativity).

Definition get : M t := fun s => (Return s, s).

Definition put (s : t) : M unit := fun _ => (Return tt, s).

(** [item.flag = state] *)
Definition set_flag (item : Item) (f : Flag) (state : bool) : M unit :=
  fun s =>
    (Return tt,
     {| hovered_item := hovered_item s; pressed_item := pressed_item s;
        lighlighted_edge := lighlighted_edge s;
        parentItem := parentItem s; edges := edges s; label := label s;
        flags := (item_id item, f, state)
                 :: List.filter (fun e => negb (bool_decide (e.1 = (item_id item, f))))
                      (flags s) |}).

(** The value of a flag; an item starts with its flags off. *)
Definition flag (s : t) (item : Item) (f : Flag) : bool :=
  default false (snd <$> List.find (fun e => bool_decide (e.1 = (item_id item, f))) (flags s)).

(** [item.parentItem()] *)
Definition get_parentItem (item : Item) : M (option Item) :=
  fun s => (Return (parentItem s !! item_id item), s).

(** A method call or attribute access on what may be [None]. *)
Definition not_None {A} (o : option A) : M A :=
  match o with
  | Some a => ret a
  | None => raise AttributeError
  end.

(** [item.label] *)
Definition get_label (item : Item) : M Item :=
  fun s =>
    match label s !! item_id item with
    | Some l => (Return l, s)
    | None => (Raise AttributeError, s)
    end.

(** [vertex.edges[item]] *)
Definition edges_getitem (vertex item : Item) : M Item :=
  fun s =>
    match default ∅ (edges s !! item_id vertex) !! item_id item with
    | Some e => (Return e, s)
    | None => (Raise KeyError, s)
    end.

Definition set_hovered (item : option Item) : M unit :=
  fun s =>
    (Return tt,
     {| hovered_item := item; pressed_item := pressed_item s;
        lighlighted_edge := lighlighted_edge s;
        parentItem := parentItem s; edges := edges s; label := label s;
        flags := flags s |}).

Definition set_pressed (item : option Item) : M unit :=
  fun s =>
    (Return tt,
     {| hovered_item := hovered_item s; pressed_item := item;
        lighlighted_edge := lighlighted_edge s;
        parentItem := parentItem s; edges := edges s; label := label s;
        flags := flags s |}).

Definition set_lighlighted (edge : option Item) : M unit :=
  fun s =>
    (Return tt,
     {| hovered_item := hovered_item s; pressed_item := pressed_item s;
        lighlighted_edge := edge;
        parentItem := parentItem s; edges := edges s; label := label s;
        flags := flags s |}).

Definition when (b : bool) (c : M unit) : M unit := if b then c else ret tt.

(** [_set_hovered_item_state] and [_set_pressed_item_state], which differ in
    the flag and in the item they start from. *)
Definition _set_item_state (item : option Item) (f : Flag) (state : bool) : M unit :=
  item <~ not_None item ;;
  when (isinstance_Label_or_LabelNew item)
    (p <~ get_parentItem item ;;
     p <~ not_None p ;;
     set_flag p f state) ;;;
  when (isinstance_Node item)
    (l <~ get_label item ;;
     set_flag l f state) ;;;
  set_flag item f state.

Definition _set_hovered_item_state (state : bool) : M unit :=
  s <~ get ;;
  _set_item_state (hovered_item s) state_hovered state.

Definition _set_pressed_item_state (state : bool) : M unit :=
  s <~ get ;;
  _set_item_state (pressed_item s) state_pressed state.

Definition _set_highlighted_edge_state (state : bool) : M unit :=
  s <~ get ;;
  edge <~ not_None (lighlighted_edge s) ;;
  set_flag edge state_highlighted state.

Definition get_item_edge (item : option Item) : M (option Item) :=
  match item with
  | None => ret None
  | Some item =>
      item <~ (if isinstance_Label_or_LabelNew item
               then (p <~ get_parentItem item ;; not_None p)
               else ret item) ;;
      p <~ get_parentItem item ;;
      match p with
      | Some p =>
          if isinstance_Vertex p
          then (e <~ edges_getitem p item ;; ret (Some e))
          else ret None
      | None => ret None
      end
  end.

Definition set_highlighted_edge (edge : option Item) : M unit :=
  s <~ get ;;
  when (bool_decide (lighlighted_edge s <> None))
    (_set_highlighted_edge_state false) ;;;
  set_lighlighted edge ;;;
  when (bool_decide (edge <> None)) (_set_highlighted_edge_state true).

Definition set_hovered_item (item : option Item) : M unit :=
  s <~ get ;;
  when (bool_decide (hovered_item s <> None))
    (_set_hovered_item_state false) ;;;
  set_hovered item ;;;
  when (bool_decide (item <> None)) (_set_hovered_item_state true) ;;;
  s <~ get ;;
  when (bool_decide (pressed_item s = None))
    (edge <~ get_item_edge item ;;
     set_highlighted_edge edge).

Definition set_pressed_item (item : option Item) : M unit :=
  s <~ get ;;
  when (bool_decide (pressed_item s <> None))
    (_set_pressed_item_state false) ;;;
  set_pressed item ;;;
  when (bool_decide (item <> None)) (_set_pressed_item_state true) ;;;
  edge <~ get_item_edge item ;;
  set_highlighted_edge edge.

(** [isinstance(item, Vertex) or isinstance(item, VertexNew)
     or isinstance(item, Label) or isinstance(item, LabelNew)] *)
Definition interactive (item : Item) : bool :=
  isinstance_Vertex item || isinstance_VertexNew item
  || isinstance_Label_or_LabelNew item.

Definition mouseLeaveEvent : M unit := set_hovered_item None.

(** [customHoverEvent]; [under] is [self.items(event.scenePos())], topmost
    first. *)
Fixpoint customHoverEvent (under : list Item) : M unit :=
  match under with
  | [] => set_hovered_item None
  | item :: under =>
      s <~ get ;;
      if bool_decide (Some item = hovered_item s) then ret tt
      else if interactive item then set_hovered_item (Some item)
      else customHoverEvent under
  end.

Inductive MouseButton := LeftButton | RightButton | MiddleButton.

#[global] Instance MouseButton_eq_dec : EqDecision MouseButton.
Proof. solve_decision. Defined.

(** The [for item in self.items(event.scenePos())] loop of [mousePressEvent]. *)
Fixpoint press_loop (under : list Item) : M unit :=
  match under with
  | [] => ret tt
  | item :: under =>
      if interactive item then set_pressed_item (Some item)
      else press_loop under
  end.

Definition mousePressEvent (button : MouseButton) (under : list Item) : M unit :=
  if bool_decide (button <> LeftButton) then ret tt
  else press_loop under.

Definition mouseReleaseEvent (button : MouseButton) : M unit :=
  when (bool_decide (button = LeftButton)) (set_pressed_item None).

(** The events [Scene.event] and Qt dispatch to the handlers above. *)
Inductive Event :=
| GraphicsSceneMouseMove (under : list Item)
| GraphicsSceneMousePress (button : MouseButton) (under : list Item)
| GraphicsSceneMouseRelease (button : MouseButton)
| GraphicsSceneLeave.

Definition event (e : Event) : M unit :=
  match e with
  | GraphicsSceneMouseMove under => customHoverEvent under
  | GraphicsSceneMousePress button under => mousePressEvent button under
  | GraphicsSceneMouseRelease button => mouseReleaseEvent button
  | GraphicsSceneLeave => mouseLeaveEvent
  end.

(** A run of events; it stops at the first exception. *)
Fixpoint run (es : list Event) : M unit :=
  match es with
  | [] => ret tt
  | e :: es => event e ;;; run es
  end.

(** The edge the claim derives from the pressed item, or else from the
    hovered item. *)
Definition derived_edge (s : t) : result (option Item) :=
  let item := match pressed_item s with
              | Some i => Some i
              | None => hovered_item s
              end in
  fst (get_item_edge item s).

(** The two halves of [set_hovered_item]: the lines that move the hover
    flags and [hovered_item], and the [if self.pressed_item is None] block. *)
Definition hover_steps (item : option Item) : M unit :=
  s <~ get ;;
  when (bool_decide (hovered_item s <> None))
    (_set_hovered_item_state false) ;;;
  set_hovered item ;;;
  when (bool_decide (item <> None)) (_set_hovered_item_state true).

Definition hover_tail (item : option Item) : M unit :=
  s <~ get ;;
  when (bool_decide (pressed_item s = None))
    (edge <~ get_item_edge item ;;
     set_highlighted_edge edge).

(** The two halves of [set_pressed_item]. *)
Definition press_steps (item : option Item) : M unit :=
  s <~ get ;;
  when (bool_decide (pressed_item s <> None))
    (_set_pressed_item_state false) ;;;
  set_pressed item ;;;
  when (bool_decide (item <> None)) (_set_pressed_item_state true).

Definition press_tail (item : option Item) : M unit :=
  edge <~ get_item_edge item ;;
  set_highlighted_edge edge.

(** [c] keeps the property [P] of the scene, whether it returns or
    raises. *)
Definition keeps {A} (P : t -> Prop) (c : M A) : Prop :=
  forall s, P s -> P (snd (c s)).

(** The edges whose highlight flag is on are at most the one the scene
    holds as highlighted. *)
Definition one_highlight (s : t) : Prop :=
  forall e, flag s e state_highlighted = true ->
    item_id <$> lighlighted_edge s = Some (item_id e).

(** What the scene shows of the highlight, and what it is computed from. *)
Definition same_highlight (s0 s : t) : Prop :=
  lighlighted_edge s = lighlighted_edge s0
  /\ forall e, flag s e state_highlighted = flag s0 e state_highlighted.

Definition same_tree (s0 s : t) : Prop :=
  parentItem s = parentItem s0 /\ edges s = edges s0 /\ label s = label s0.

(** A computation that only reads the item tree: it leaves the scene as
    it is, and gives the same result on scenes with the same tree. *)
Definition reads_tree {A} (c : M A) : Prop :=
  forall s s1, same_tree s s1 ->
    fst (c s1) = fst (c s) /\ snd (c s) = s /\ snd (c s1) = s1.

End Demo.

(** ** Sample data *)

Module Sample.

(** Two palettes that differ at every index and in their accents. *)
Definition spring : Palette.t :=
  {| Palette.getitem := fun i => if (i =? 0)%nat then "#a6cee3" else "#1f78b4";
     Palette.default := "#808080";
     Palette.highlight := "#ff00ff";
     Palette.label := "Spring" |}.

Definition autumn : Palette.t :=
  {| Palette.getitem := fun i => if (i =? 0)%nat then "#b15928" else "#ffff99";
     Palette.default := "#000000";
     Palette.highlight := "#00ffff";
     Palette.label := "Autumn" |}.

(** [DivisionListModel(['X', 'Y'], spring)] *)
Definition model : DivisionListModel.t :=
  DivisionListModel.init ["X"; "Y"] spring.

Definition index0 : DivisionListModel.QModelIndex :=
  {| DivisionListModel.isValid := true; DivisionListModel.row := 0 |}.

Definition settings : Settings.t :=
  {| Settings.palette := spring; Settings.divisions := model;
     Settings.highlight_color := "#ff00ff";
     Settings.rotational_movement := true;
     Settings.recursive_movement := true;
     Settings.label_movement := false |}.

(** [GraphicsScene(settings)] *)
Definition scene : GraphicsScene.t := GraphicsScene.init settings.

(** A label that lies on top of a vertex, as Qt reports them under a point. *)
Definition a_vertex : GraphicsScene.Item :=
  {| GraphicsScene.item_id := 0; GraphicsScene.item_class := GraphicsScene.Node |}.

Definition a_label : GraphicsScene.Item :=
  {| GraphicsScene.item_id := 1; GraphicsScene.item_class := GraphicsScene.Label |}.

Definition label_over_vertex (_ : list GraphicsScene.Item)
    (_ : GraphicsScene.QPointF) : list GraphicsScene.Item :=
  [a_label; a_vertex].

Definition origin : GraphicsScene.QPointF :=
  {| GraphicsScene.x := 0; GraphicsScene.y := 0 |}.

(** Every item of the scene lies under every point. *)
Definition all_under (l : list GraphicsScene.Item)
    (_ : GraphicsScene.QPointF) : list GraphicsScene.Item := l.

(** A distance function for the samples: the identity of the edge. *)
Definition distance_by_id (_ : GraphicsScene.QPointF)
    (item : GraphicsScene.Item) : Qc :=
  Q2Qc (inject_Z (Z.of_nat (GraphicsScene.item_id item))).

(** A scene with a node and its two children: the edge to the first child
    has 3 segments, the edge to the second has 4. *)
Definition node1 : GraphicsScene.Item :=
  {| GraphicsScene.item_id := 0; GraphicsScene.item_class := GraphicsScene.Node |}.

Definition node2 : GraphicsScene.Item :=
  {| GraphicsScene.item_id := 1; GraphicsScene.item_class := GraphicsScene.Node |}.

Definition edge12 : GraphicsScene.Item :=
  {| GraphicsScene.item_id := 2; GraphicsScene.item_class := GraphicsScene.Edge |}.

Definition node3 : GraphicsScene.Item :=
  {| GraphicsScene.item_id := 3; GraphicsScene.item_class := GraphicsScene.Node |}.

Definition edge13 : GraphicsScene.Item :=
  {| GraphicsScene.item_id := 4; GraphicsScene.item_class := GraphicsScene.Edge |}.

Definition family : GraphicsScene.t :=
  let '(n1, s) := GraphicsScene.create_node scene in
  let s := GraphicsScene.addItem s n1 in
  let '(n2, s) := GraphicsScene.create_node s in
  let s := snd (GraphicsScene.add_child GraphicsScene.Vertex_addChild s n1 n2 3) in
  let '(n3, s) := GraphicsScene.create_node s in
  snd (GraphicsScene.add_child GraphicsScene.Vertex_addChild s n1 n3 4).

(** A [Vertex.addChild] that rejects every call. *)
Definition addChild_raises (_ _ _ : GraphicsScene.Item)
    (_ : gmap nat (list (GraphicsScene.Item * GraphicsScene.Item)))
    : result (gmap nat (list (GraphicsScene.Item * GraphicsScene.Item))) :=
  Raise AttributeError.

Definition left_press : GraphicsScene.MouseEvent :=
  {| GraphicsScene.button := GraphicsScene.LeftButton;
     GraphicsScene.buttons := [GraphicsScene.LeftButton];
     GraphicsScene.scenePos := origin |}.

Definition move : GraphicsScene.MouseEvent :=
  {| GraphicsScene.button := GraphicsScene.NoButton;
     GraphicsScene.buttons := [];
     GraphicsScene.scenePos := origin |}.

(** A scene with one vertex, after the pointer has moved onto the vertex
    and the left button has been pressed on it. *)
Definition with_vertex : GraphicsScene.t :=
  let '(v, s) := GraphicsScene.create_vertex scene in
  GraphicsScene.addItem s v.

Definition the_vertex : GraphicsScene.Item :=
  {| GraphicsScene.item_id := 0; GraphicsScene.item_class := GraphicsScene.Vertex |}.

Definition hovering : GraphicsScene.t :=
  GraphicsScene.mouseMoveEvent all_under distance_by_id with_vertex move.

Definition pressing : GraphicsScene.t :=
  GraphicsScene.mousePressEvent all_under distance_by_id hovering left_press.

(** The prototype's scene with a parent vertex, a child vertex that is a
    child item of the parent, and the edge between them. *)
Definition parent : Demo.Item :=
  {| Demo.item_id := 0; Demo.item_class := Demo.Vertex |}.

Definition child : Demo.Item :=
  {| Demo.item_id := 1; Demo.item_class := Demo.Vertex |}.

Definition tree_edge : Demo.Item :=
  {| Demo.item_id := 2; Demo.item_class := Demo.Edge |}.

Definition demo : Demo.t :=
  Demo.init {[ 1%nat := parent ]} {[ 0%nat := {[ 1%nat := tree_edge ]} ]} ∅.

(** The pointer moves onto the child, the left button goes down on it and
    comes up again. *)
Definition hover_press_release : list Demo.Event :=
  [ Demo.GraphicsSceneMouseMove [child];
    Demo.GraphicsSceneMousePress Demo.LeftButton [child];
    Demo.GraphicsSceneMouseRelease Demo.LeftButton ].

(** The same, and then the pointer moves on within the child. *)
Definition hover_press_release_move : list Demo.Event :=
  hover_press_release ++ [ Demo.GraphicsSceneMouseMove [child] ].

(** The pointer moves over the vertex, the left button goes down and up,
    and the pointer leaves the scene. *)
Definition left_release : GraphicsScene.MouseEvent :=
  {| GraphicsScene.button := GraphicsScene.LeftButton;
     GraphicsScene.buttons := [];
     GraphicsScene.scenePos := origin |}.

Definition session : list GraphicsScene.Event :=
  [ GraphicsScene.GraphicsSceneMouseMove move;
    GraphicsScene.GraphicsSceneMousePress left_press;
    GraphicsScene.GraphicsSceneMouseRelease left_release;
    GraphicsScene.GraphicsSceneLeave ].

End Sample.

(** * Properties *)

(** Closes a decidable closed goal by evaluating its decision procedure. *)
Ltac by_decide := apply (bool_decide_unpack _); vm_compute; exact I.

(** ** The division resolver *)

Section DivisionListModelFacts.

Import DivisionListModel.

Lemma dict_of_snoc ds d :
  dict_of (ds ++ [d]) = <[key d := color d]> (dict_of ds).
Proof. unfold dict_of. by rewrite foldl_app. Qed.

Lemma zip_palette_snoc P K k :
  zip_palette P (K ++ [k])
  = zip_palette P K ++ [ {| key := k; color := Palette.getitem P (length K) |} ].
Proof.
  unfold zip_palette. rewrite imap_app. simpl.
  by rewrite Nat.add_0_r.
Qed.

Lemma recolor_zip_palette P Q K :
  recolor P (zip_palette Q K) = zip_palette P K.
Proof.
  unfold recolor, zip_palette.
  generalize (Palette.getitem P) (Palette.getitem Q). intros f g.
  revert f g. induction K as [|k K IH]; intros f g; [done|].
  simpl. f_equal. apply (IH (f ∘ S) (g ∘ S)).
Qed.

Lemma length_zip_palette P K : length (zip_palette P K) = length K.
Proof. unfold zip_palette. by rewrite length_imap. Qed.

Lemma divisions_signal self : _divisions (signal self) = _divisions self.
Proof. unfold signal. by destruct (connected self). Qed.

Lemma default_color_signal self : _default_color (signal self) = _default_color self.
Proof. unfold signal. by destruct (connected self). Qed.

Lemma connected_signal self : connected (signal self) = connected self.
Proof. unfold signal. by destruct (connected self) eqn:E. Qed.

Lemma emitted_signal self :
  connected self = true ->
  colorMapChanged (signal self) = colorMapChanged self ++ [get_color_map (signal self)].
Proof. unfold signal. by intros ->. Qed.

Lemma divisions_set_palette self P :
  _divisions (set_palette self P) = recolor P (_divisions self).
Proof. unfold set_palette. by rewrite divisions_signal. Qed.

Lemma divisions_set_divisions_from_keys self K :
  _divisions (set_divisions_from_keys self K) = zip_palette (_palette self) K.
Proof. unfold set_divisions_from_keys. by rewrite divisions_signal. Qed.

(** The divisions after [set_divisions_from_keys(K); set_palette(P)]. *)
Lemma divisions_after_keys_palette self K P :
  _divisions (set_palette (set_divisions_from_keys self K) P) = zip_palette P K.
Proof.
  rewrite divisions_set_palette, divisions_set_divisions_from_keys.
  apply recolor_zip_palette.
Qed.

Lemma default_after_set_palette self P :
  _default_color (set_palette self P) = Palette.default P.
Proof. unfold set_palette. by rewrite default_color_signal. Qed.

Lemma dict_of_zip_absent P K k :
  k ∉ K -> dict_of (zip_palette P K) !! k = None.
Proof.
  induction K as [|x K IH] using rev_ind; intros Hk; [done|].
  rewrite zip_palette_snoc, dict_of_snoc. simpl.
  rewrite lookup_insert_ne; [apply IH|]; set_solver.
Qed.

Lemma dict_of_zip_last P K k i :
  K !! i = Some k -> k ∉ drop (S i) K ->
  dict_of (zip_palette P K) !! k = Some (Palette.getitem P i).
Proof.
  revert i. induction K as [|x K IH] using rev_ind; intros i Hi Hlast; [done|].
  rewrite zip_palette_snoc, dict_of_snoc. simpl.
  destruct (decide (i = length K)) as [->|Hne].
  - rewrite list_lookup_middle in Hi by done. injection Hi as ->.
    by rewrite lookup_insert_eq.
  - assert (i < length K) as Hlt.
    { apply lookup_lt_Some in Hi. rewrite length_app in Hi. simpl in Hi. lia. }
    rewrite drop_app_le in Hlast by lia.
    rewrite lookup_app_l in Hi by done.
    rewrite lookup_insert_ne by set_solver.
    apply IH; [done|set_solver].
Qed.

End DivisionListModelFacts.

Section ColorMapOfKeys.

Import DivisionListModel.

(** C2 (as amended).  After [set_divisions_from_keys(K)] and then
    [set_palette(P)], looking a key up in [get_color_map()] gives the colour
    of [P] at the index of the key's last occurrence in [K] (its only index
    when [K] has no duplicates), and the default colour of [P] for a key
    that is not in [K]. *)
Theorem get_color_map_after_keys_and_palette self K P k :
  let self' := set_palette (set_divisions_from_keys self K) P in
  let cm := get_color_map self' in
  (forall i, K !! i = Some k -> k ∉ drop (S i) K ->
     fst (getitem self' cm k) = Palette.getitem P i)
  /\ (NoDup K -> forall i, K !! i = Some k ->
        fst (getitem self' cm k) = Palette.getitem P i)
  /\ (k ∉ K -> fst (getitem self' cm k) = Palette.default P).
Proof.
  intros self' cm.
  assert (cm_dict cm = dict_of (zip_palette P K)) as Hcm.
  { unfold cm, get_color_map, self'. simpl.
    by rewrite divisions_after_keys_palette. }
  assert (forall i, K !! i = Some k -> k ∉ drop (S i) K ->
            fst (getitem self' cm k) = Palette.getitem P i) as Hlast.
  { intros i Hi Hlast. unfold getitem.
    by rewrite Hcm, (dict_of_zip_last P K k i). }
  split; [exact Hlast|split].
  - intros Hnodup i Hi. apply Hlast; [done|].
    intros Hin. apply list_elem_of_lookup in Hin as [j Hj].
    rewrite lookup_drop in Hj.
    pose proof (NoDup_lookup K i (S i + j) k Hnodup Hi Hj). lia.
  - intros Hk. unfold getitem.
    rewrite Hcm, dict_of_zip_absent by done. simpl.
    unfold self'. apply default_after_set_palette.
Qed.

(** The keys ['X', 'Y'] under the autumn palette: ['X'] gets the colour at
    index 0, ['Y'] the one at index 1, ['Z'] the default. *)
Lemma get_color_map_after_keys_and_palette_witness :
  let K := ["X"; "Y"] in
  let self' := set_palette (set_divisions_from_keys Sample.model K) Sample.autumn in
  let cm := get_color_map self' in
  fst (getitem self' cm "X") = "#b15928"
  /\ fst (getitem self' cm "Y") = "#ffff99"
  /\ fst (getitem self' cm "Z") = "#000000".
Proof.
  intros K self' cm.
  pose proof (get_color_map_after_keys_and_palette
                Sample.model K Sample.autumn "X") as (HX & _ & _).
  pose proof (get_color_map_after_keys_and_palette
                Sample.model K Sample.autumn "Y") as (_ & HY & _).
  pose proof (get_color_map_after_keys_and_palette
                Sample.model K Sample.autumn "Z") as (_ & _ & HZ).
  split; [|split].
  - apply (HX 0%nat); [reflexivity|by_decide].
  - apply (HY ltac:(by_decide) 1%nat). reflexivity.
  - apply HZ. by_decide.
Defined.

(** C2 (as stated) fails when a key occurs twice: ['X'] stands at index 0
    of [K], and the map sends it to the colour at index 1. *)
Lemma get_color_map_duplicate_key :
  let K := ["X"; "X"] in
  let self' := set_palette (set_divisions_from_keys Sample.model K) Sample.autumn in
  K !! 0%nat = Some "X"
  /\ fst (getitem self' (get_color_map self') "X") = "#ffff99"
  /\ Palette.getitem Sample.autumn 0 = "#b15928"
  /\ Palette.getitem Sample.autumn 1 = "#ffff99".
Proof. vm_compute. repeat split. Qed.

End ColorMapOfKeys.

Section SetDataFacts.

Import DivisionListModel.

Variable isValidColor : string -> bool.

Lemma normalize_startswith value : Py.startswith (normalize value) "#" = true.
Proof.
  unfold normalize. by destruct (Py.startswith (Py.strip value) "#") eqn:E.
Qed.

Lemma normalize_cases value :
  normalize value = Py.strip value
  \/ normalize value = String "#" (Py.strip value).
Proof.
  unfold normalize. destruct (Py.startswith (Py.strip value) "#"); auto.
Qed.

(** Every path of [setData] that returns [False] leaves the model as it
    was. *)
Lemma setData_False self index value role self' :
  setData isValidColor self index value role = (false, self') -> self' = self.
Proof.
  unfold setData.
  destruct (index_ok self index); simpl; [|congruence].
  destruct role; try congruence.
  destruct (isValidColor (normalize value)); simpl; congruence.
Qed.

Lemma setData_invalid self index value role :
  isValidColor (normalize value) = false ->
  setData isValidColor self index value role = (false, self).
Proof.
  intros Hbad. unfold setData.
  destruct (index_ok self index); simpl; [|done].
  destruct role; try done. by rewrite Hbad.
Qed.

Lemma setData_valid self index value :
  isValidColor (normalize value) = true -> index_ok self index = true ->
  setData isValidColor self index value EditRole
  = (true, signal (with_divisions self
             (set_color (_divisions self) (Z.to_nat (row index)) (normalize value)))).
Proof. intros Hok Hidx. unfold setData. by rewrite Hidx, Hok. Qed.

Lemma index_ok_lookup self index :
  index_ok self index = true ->
  is_Some (_divisions self !! Z.to_nat (row index)).
Proof.
  unfold index_ok, rowCount. intros [_ H%bool_decide_eq_true]%andb_true_iff.
  apply lookup_lt_is_Some. lia.
Qed.

Lemma set_color_lookup ds i c :
  is_Some (ds !! i) -> color <$> set_color ds i c !! i = Some c.
Proof.
  intros [d Hd]. unfold set_color.
  by rewrite list_lookup_alter_eq, Hd.
Qed.

Lemma set_color_lookup_ne ds i j c : i <> j -> set_color ds i c !! j = ds !! j.
Proof. intros. unfold set_color. by apply list_lookup_alter_ne. Qed.

Lemma set_color_keys ds i c : key <$> set_color ds i c = key <$> ds.
Proof.
  unfold set_color. revert i. induction ds as [|d ds IH]; intros [|i]; simpl; try done.
  f_equal. apply IH.
Qed.

(** C5.  [setData] normalises the value to a colour that starts with [#]
    (the stripped value, with [#] put in front when it lacks one).  When Qt
    does not accept that colour, the call returns [False] and the model, and
    so its colour map and what it has emitted, is what it was; ["zzzzzz"] is
    such a value.  When Qt accepts it (and the index is in range), the call
    returns [True], the division has the new colour, the keys and the other
    divisions are unchanged, and the new colour map has been emitted. *)
Theorem setData_edits_color self index value :
  let c := normalize value in
  Py.startswith c "#" = true
  /\ (c = Py.strip value \/ c = String "#" (Py.strip value))
  /\ (isValidColor c = false ->
        setData isValidColor self index value EditRole = (false, self))
  /\ (isValidColor c = true -> index_ok self index = true ->
      connected self = true ->
        exists self',
          setData isValidColor self index value EditRole = (true, self')
          /\ color <$> _divisions self' !! Z.to_nat (row index) = Some c
          /\ (forall j, j <> Z.to_nat (row index) ->
                _divisions self' !! j = _divisions self !! j)
          /\ key <$> _divisions self' = key <$> _divisions self
          /\ colorMapChanged self'
             = colorMapChanged self ++ [get_color_map self'])
  /\ setData QColor.isValidColor self index "zzzzzz" EditRole = (false, self).
Proof.
  intros c. split; [apply normalize_startswith|].
  split; [apply normalize_cases|].
  split; [apply setData_invalid|].
  split.
  - intros Hok Hidx Hconn. eexists. split; [by apply setData_valid|].
    rewrite divisions_signal. simpl.
    split; [apply set_color_lookup, index_ok_lookup, Hidx|].
    split; [intros j Hj; by apply set_color_lookup_ne|].
    split; [apply set_color_keys|].
    by rewrite emitted_signal.
  - unfold setData. destruct (index_ok self index); done.
Qed.

End SetDataFacts.

Section SetDataExamples.

Import DivisionListModel.

(** On the model of ['X', 'Y']: ["ff0000"] and ["#ff0000"] are the same
    edit, which succeeds and emits the new map; ["zzzzzz"] fails. *)
Lemma setData_edits_color_witness :
  setData QColor.isValidColor Sample.model Sample.index0 "ff0000" EditRole
  = setData QColor.isValidColor Sample.model Sample.index0 "#ff0000" EditRole
  /\ (exists self',
        setData QColor.isValidColor Sample.model Sample.index0 "ff0000" EditRole
        = (true, self')
        /\ fst (getitem self' (get_color_map self') "X") = "#ff0000"
        /\ last (colorMapChanged self') = Some (get_color_map self'))
  /\ setData QColor.isValidColor Sample.model Sample.index0 "zzzzzz" EditRole
     = (false, Sample.model).
Proof.
  pose proof (setData_edits_color QColor.isValidColor
                Sample.model Sample.index0 "ff0000") as (_ & _ & _ & Hok & Hz).
  destruct (Hok eq_refl eq_refl eq_refl) as (self' & Hset & _ & _ & _ & Hemit).
  split; [reflexivity|]. split; [|exact Hz].
  exists self'. split; [exact Hset|].
  split.
  - vm_compute in Hset. injection Hset as <-. reflexivity.
  - rewrite Hemit. apply last_snoc.
Defined.

Example normalize_examples :
  normalize "  ff0000 " = "#ff0000"
  /\ normalize "#ff0000" = "#ff0000"
  /\ normalize "zzzzzz" = "#zzzzzz"
  /\ QColor.isValidColor "#ff0000" = true
  /\ QColor.isValidColor "#fff" = true
  /\ QColor.isValidColor "#ff00" = false
  /\ QColor.isValidColor "#zzzzzz" = false.
Proof. repeat split. Qed.

End SetDataExamples.

Section ColorMapSnapshot.

Import DivisionListModel.

Lemma getitem_present later cm k c :
  cm_dict cm !! k = Some c -> getitem later cm k = (c, cm).
Proof. intros H. unfold getitem. by rewrite H. Qed.

Lemma getitem_absent later cm k :
  cm_dict cm !! k = None ->
  getitem later cm k
  = (_default_color later, {| cm_dict := <[k := _default_color later]> (cm_dict cm) |}).
Proof. intros H. unfold getitem. by rewrite H. Qed.

Lemma getitem_again now later cm k :
  fst (getitem later (snd (getitem now cm k)) k) = fst (getitem now cm k).
Proof.
  unfold getitem at 2 3. destruct (cm_dict cm !! k) as [c|] eqn:E; simpl.
  - by rewrite (getitem_present later cm k c).
  - erewrite getitem_present; [done|]. simpl. apply lookup_insert_eq.
Qed.

(** C8 (as amended).  [get_color_map] builds the dictionary from the
    divisions alone, and a connected model emits a newly built map after a
    palette swap and after a key reset.  A lookup on a map obtained earlier
    is total; for a key the map holds it gives the colour the map was built
    with, whatever the state [later] of the resolver; for a key the map does
    not hold it gives the default colour the resolver has when the lookup
    happens, and stores it, so that the next lookup of the key repeats it. *)
Theorem color_map_lookup_after_mutation self later k :
  let cm := get_color_map self in
  cm_dict cm = dict_of (_divisions self)
  /\ (forall c, cm_dict cm !! k = Some c ->
        getitem later cm k = getitem self cm k /\ fst (getitem later cm k) = c)
  /\ (cm_dict cm !! k = None ->
        fst (getitem later cm k) = _default_color later)
  /\ (forall now, fst (getitem later (snd (getitem now cm k)) k)
                  = fst (getitem now cm k))
  /\ (connected self = true ->
        (forall P, last (colorMapChanged (set_palette self P))
                   = Some (get_color_map (set_palette self P)))
        /\ (forall K, last (colorMapChanged (set_divisions_from_keys self K))
                      = Some (get_color_map (set_divisions_from_keys self K)))).
Proof.
  intros cm. split; [done|]. split; [|split; [|split]].
  - intros c Hc. by rewrite !(getitem_present _ cm k c).
  - intros Hk. by rewrite getitem_absent.
  - intros now. apply getitem_again.
  - intros Hconn. split.
    + intros P. unfold set_palette. rewrite emitted_signal by done.
      apply last_snoc.
    + intros K. unfold set_divisions_from_keys. rewrite emitted_signal by done.
      apply last_snoc.
Qed.

(** On the model of ['X', 'Y'] under the spring palette, after a swap to the
    autumn palette: ['X'] keeps its spring colour in the earlier map. *)
Lemma color_map_lookup_after_mutation_witness :
  let cm := get_color_map Sample.model in
  let later := set_palette Sample.model Sample.autumn in
  fst (getitem later cm "X") = "#a6cee3"
  /\ last (colorMapChanged later) = Some (get_color_map later).
Proof.
  intros cm later.
  pose proof (color_map_lookup_after_mutation Sample.model later "X")
    as (_ & Hin & _ & _ & Hemit).
  split.
  - apply (Hin "#a6cee3"). reflexivity.
  - apply (Hemit eq_refl).
Defined.

(** C8 (as stated) fails for the default fallback: the map obtained before
    a palette swap answers a key it does not hold with the default colour
    of the new palette. *)
Lemma color_map_default_follows_palette :
  let cm := get_color_map Sample.model in
  let later := set_palette Sample.model Sample.autumn in
  cm_dict cm !! "Z" = None
  /\ fst (getitem Sample.model cm "Z") = "#808080"
  /\ fst (getitem later cm "Z") = "#000000".
Proof. vm_compute. repeat split. Qed.

End ColorMapSnapshot.

(** ** The settings hub *)

Section SettingsFacts.

Import DivisionListModel.

Lemma recolor_lookup P ds i :
  recolor P ds !! i
  = (fun d => {| key := key d; color := Palette.getitem P i |}) <$> ds !! i.
Proof. unfold recolor. apply list_lookup_imap. Qed.

(** C7.  One write of the palette property stores the palette, gives every
    division the colour of the new palette at its index (keys kept) and the
    resolver the new default colour, makes a connected resolver emit the new
    colour map, and sets the highlight colour to the accent of the new
    palette; the movement flags are not touched. *)
Theorem palette_write_cascades (self : Settings.t) (P : Palette.t) :
  let self' := Settings.set_palette self P in
  Settings.palette self' = P
  /\ Settings.highlight_color self' = Palette.highlight P
  /\ (forall i,
        _divisions (Settings.divisions self') !! i
        = (fun d => {| key := key d; color := Palette.getitem P i |})
            <$> _divisions (Settings.divisions self) !! i)
  /\ _default_color (Settings.divisions self') = Palette.default P
  /\ colorMapChanged (Settings.divisions self')
     = (if connected (Settings.divisions self)
        then colorMapChanged (Settings.divisions self)
             ++ [get_color_map (Settings.divisions self')]
        else colorMapChanged (Settings.divisions self))
  /\ Settings.rotational_movement self' = Settings.rotational_movement self
  /\ Settings.recursive_movement self' = Settings.recursive_movement self
  /\ Settings.label_movement self' = Settings.label_movement self.
Proof.
  intros self'. unfold self', Settings.set_palette, Settings.bound_highlight,
    Settings.bound_set_palette. simpl.
  repeat split.
  - intros i. rewrite divisions_set_palette. apply recolor_lookup.
  - apply default_after_set_palette.
  - unfold set_palette, signal. simpl.
    by destruct (connected (Settings.divisions self)).
Qed.

End SettingsFacts.

(** ** Hit testing *)

Section HitTestFacts.

Import GraphicsScene.

Variable items_at : list Item -> QPointF -> list Item.
Variable distanceToLine : QPointF -> Item -> Qc.

Lemma lt_inf d : lt d inf = true.
Proof. done. Qed.

Lemma lt_Finite d c : lt d (Finite c) = true <-> (d < c)%Qc.
Proof. simpl. apply bool_decide_eq_true. Qed.

Lemma lt_Finite_false d c : lt d (Finite c) = false <-> (c <= d)%Qc.
Proof.
  simpl. rewrite bool_decide_eq_false. split.
  - apply Qcnot_lt_le.
  - apply Qcle_not_lt.
Qed.

Lemma lt_trans_Finite d d' c :
  (d < d')%Qc -> lt d' c = true -> lt d c = true.
Proof.
  destruct c as [c|]; [|done]. rewrite !lt_Finite. apply Qclt_trans.
Qed.

Lemma loop_returned_at_once point ie il ci cd l item :
  List.find (returned_at_once il) l = Some item ->
  getItemAtPos_loop distanceToLine point ie il ci cd l = Some item.
Proof.
  revert ci cd. induction l as [|i l IH]; intros ci cd; [done|].
  simpl. unfold returned_at_once at 1.
  destruct (isinstance_Vertex i); simpl; [congruence|].
  destruct (isinstance_Label i && negb il); simpl; [congruence|].
  intros H.
  destruct (isinstance_Edge i && negb ie); [destruct (lt _ cd)|]; by apply IH.
Qed.

Lemma loop_ignore_edges point il ci cd l :
  List.find (returned_at_once il) l = None ->
  getItemAtPos_loop distanceToLine point true il ci cd l = ci.
Proof.
  revert ci cd. induction l as [|i l IH]; intros ci cd; [done|].
  simpl. unfold returned_at_once at 1.
  destruct (isinstance_Vertex i); simpl; [congruence|].
  destruct (isinstance_Label i && negb il); simpl; [congruence|].
  rewrite andb_false_r. apply IH.
Qed.

Lemma loop_nearest point il ci cd l :
  List.find (returned_at_once il) l = None ->
  let r := getItemAtPos_loop distanceToLine point false il ci cd l in
  (r = ci /\ forall e, e ∈ l -> isinstance_Edge e = true ->
                lt (distanceToLine point e) cd = false)
  \/ (exists k e, r = Some e /\ nearest_edge distanceToLine point l k e
                  /\ lt (distanceToLine point e) cd = true).
Proof.
  revert ci cd. induction l as [|i l IH]; intros ci cd Hfind; simpl.
  { left. split; [done|]. intros e He. by apply elem_of_nil in He. }
  simpl in Hfind. unfold returned_at_once in Hfind at 1.
  destruct (isinstance_Vertex i) eqn:EV; simpl in Hfind; [congruence|].
  destruct (isinstance_Label i && negb il) eqn:EL; simpl in Hfind; [congruence|].
  rewrite andb_true_r.
  destruct (isinstance_Edge i) eqn:EE.
  - destruct (lt (distanceToLine point i) cd) eqn:Elt.
    + destruct (IH (Some i) (Finite (distanceToLine point i)) Hfind)
        as [[Hr Hall]|(k & e & Hr & (Hk & He & Hmin) & Hlt)].
      * right. exists 0%nat, i. split; [done|]. split; [|done].
        split; [done|]. split; [done|].
        intros [|j] e' Hj He'; simpl in Hj.
        -- injection Hj as <-. split; [apply Qcle_refl|lia].
        -- split; [|lia]. apply lt_Finite_false, Hall; [|done].
           apply list_elem_of_lookup. eauto.
      * apply lt_Finite in Hlt.
        right. exists (S k), e. split; [done|].
        split; [|by eapply lt_trans_Finite].
        split; [done|]. split; [done|].
        intros [|j] e' Hj He'; simpl in Hj.
        -- injection Hj as <-. split; [by apply Qclt_le_weak|done].
        -- destruct (Hmin j e' Hj He') as [Hle Hlt'].
           split; [done|]. intros ?. apply Hlt'. lia.
    + destruct (IH ci cd Hfind)
        as [[Hr Hall]|(k & e & Hr & (Hk & He & Hmin) & Hlt)].
      * left. split; [done|]. intros e [->|He]%elem_of_cons; [done|].
        by apply Hall.
      * right. exists (S k), e. split; [done|]. split; [|done].
        split; [done|]. split; [done|].
        destruct cd as [c|]; [|done].
        apply lt_Finite in Hlt. apply lt_Finite_false in Elt.
        intros [|j] e' Hj He'; simpl in Hj.
        -- injection Hj as <-.
           split; [apply Qclt_le_weak|intros _]; by eapply Qclt_le_trans.
        -- destruct (Hmin j e' Hj He') as [Hle Hlt'].
           split; [done|]. intros ?. apply Hlt'. lia.
  - destruct (IH ci cd Hfind)
      as [[Hr Hall]|(k & e & Hr & (Hk & He & Hmin) & Hlt)].
    + left. split; [done|]. intros e [->|He]%elem_of_cons; [congruence|].
      by apply Hall.
    + right. exists (S k), e. split; [done|]. split; [|done].
      split; [done|]. split; [done|].
      intros [|j] e' Hj He'; simpl in Hj.
      * injection Hj as <-. congruence.
      * destruct (Hmin j e' Hj He') as [Hle Hlt'].
        split; [done|]. intros ?. apply Hlt'. lia.
Qed.

(** C1 (as amended).  [getItemAtPos] goes through the items Qt reports
    under the point, topmost first, and returns the first one that is a
    [Vertex], or a [Label] when labels are not ignored ([ignore_labels]
    defaults to the negation of the label-movement setting).  When there is
    none and edges are not ignored, it returns the edge among those items
    whose distance is least, the topmost of them when several are as near,
    and [None] when no edge is among the items; when edges are ignored it
    returns [None]. *)
Theorem getItemAtPos_order self pos ignore_edges ignore_labels :
  let il := default (negb (Settings.label_movement (settings self))) ignore_labels in
  let under := items_at (items self) pos in
  let r := getItemAtPos items_at distanceToLine self pos ignore_edges ignore_labels in
  match List.find (returned_at_once il) under with
  | Some item => r = Some item
  | None =>
      if ignore_edges then r = None
      else (r = None /\ forall e, e ∈ under -> isinstance_Edge e = false)
           \/ exists k e, r = Some e /\ nearest_edge distanceToLine pos under k e
  end.
Proof.
  intros il under r.
  assert (r = getItemAtPos_loop distanceToLine pos ignore_edges il None inf under)
    as Hr by (unfold r, getItemAtPos, il; by destruct ignore_labels).
  destruct (List.find (returned_at_once il) under) as [item|] eqn:Hfind.
  - rewrite Hr. by apply loop_returned_at_once.
  - destruct ignore_edges.
    + rewrite Hr. by apply loop_ignore_edges.
    + destruct (loop_nearest pos il None inf under Hfind)
        as [[Hnone Hall]|(k & e & Hsome & Hnear & _)].
      * left. split; [by rewrite Hr|].
        intros e He. destruct (isinstance_Edge e) eqn:EE; [|done].
        by specialize (Hall e He EE).
      * right. exists k, e. by rewrite Hr.
Qed.

End HitTestFacts.

Section HitTestExamples.

Import GraphicsScene.

(** C1 (as stated) fails for the order of vertex and label: with labels not
    ignored, a label that lies on top of a vertex is returned, although a
    vertex is under the point.  The same with the default [ignore_labels]
    when label movement is switched on. *)
Lemma getItemAtPos_label_over_vertex :
  let scene' := init (Settings.set_label_movement Sample.settings true) in
  Sample.label_over_vertex (items Sample.scene) Sample.origin
  = [Sample.a_label; Sample.a_vertex]
  /\ isinstance_Vertex Sample.a_vertex = true
  /\ isinstance_Vertex Sample.a_label = false
  /\ getItemAtPos Sample.label_over_vertex Sample.distance_by_id
       Sample.scene Sample.origin false (Some false) = Some Sample.a_label
  /\ getItemAtPos Sample.label_over_vertex Sample.distance_by_id
       scene' Sample.origin false None = Some Sample.a_label.
Proof. repeat split. Qed.

(** Edges at distances 5, 3 and 4 under the point: the one at distance 3
    is returned; a vertex below them is returned instead of any edge; and
    with edges ignored and the label ignored by default nothing is. *)
Example getItemAtPos_nearest_edge :
  let edge n := {| item_id := n; item_class := Edge |} in
  getItemAtPos (fun _ _ => [edge 5; edge 3; edge 4]%nat) Sample.distance_by_id
    Sample.scene Sample.origin false None = Some (edge 3%nat)
  /\ getItemAtPos (fun _ _ => [edge 5; edge 3; Sample.a_label; Sample.a_vertex]%nat)
       Sample.distance_by_id Sample.scene Sample.origin false None
     = Some Sample.a_vertex
  /\ getItemAtPos (fun _ _ => [edge 5; Sample.a_label; edge 3]%nat)
       Sample.distance_by_id Sample.scene Sample.origin true None
     = None.
Proof. vm_compute. repeat split. Qed.

End HitTestExamples.

(** ** Topology *)

Section AddChildFacts.

Import GraphicsScene.

Lemma elem_of_addItem self item : item ∈ items (addItem self item).
Proof.
  unfold addItem. case_bool_decide; [done|]. simpl. apply elem_of_cons. by left.
Qed.

Lemma elem_of_addItem_mono self item i :
  i ∈ items self -> i ∈ items (addItem self item).
Proof.
  intros Hi. unfold addItem. case_bool_decide; [done|]. simpl.
  apply elem_of_cons. by right.
Qed.

Lemma binder_addItem self item : binder (addItem self item) = binder self.
Proof. unfold addItem. by case_bool_decide. Qed.

Lemma edge_objs_addItem self item : edge_objs (addItem self item) = edge_objs self.
Proof. unfold addItem. by case_bool_decide. Qed.

Lemma children_addItem self item : children (addItem self item) = children self.
Proof. unfold addItem. by case_bool_decide. Qed.

(** The bindings of the new edge are made before [addChild] is called. *)
Lemma binder_add_child addChild self parent child segments :
  binder (snd (add_child addChild self parent child segments))
  = binder self ++ edge_bindings {| item_id := next_id self; item_class := Edge |}.
Proof.
  unfold add_child, create_edge, new, bind. simpl.
  destruct (addChild parent child _ (children self)); simpl; [|done].
  by rewrite !binder_addItem.
Qed.

(** When [addChild] returns, the edge and then the child are added. *)
Lemma items_add_child addChild self parent child segments :
  let edge := {| item_id := next_id self; item_class := Edge |} in
  items (snd (add_child addChild self parent child segments))
  = match addChild parent child edge (children self) with
    | Return _ => items (addItem (addItem self edge) child)
    | Raise _ => items self
    end.
Proof.
  unfold add_child, create_edge, new, bind. simpl.
  destruct (addChild parent child _ (children self)); simpl; [|done].
  unfold addItem. simpl. repeat case_bool_decide; done.
Qed.

(** C3 (as amended).  [add_child(parent, child, segments)] has no guard: for
    every parent and child, also when they are the same vertex or when the
    child has a parent already, it creates an edge object between the two
    with the given segment count and binds it to the settings; then it calls
    [parent.addChild(child, edge)], and when that returns, the edge and the
    child are in the live set and nothing has left it.  With an [addChild]
    that registers the pair under the parent, as the spec has it, the call
    returns normally and the parent owns [(child, edge)]. *)
Theorem add_child_effects addChild self parent child segments :
  let edge := {| item_id := next_id self; item_class := Edge |} in
  let r := add_child addChild self parent child segments in
  binder (snd r) = binder self ++ edge_bindings edge
  /\ edge_objs (snd r)
     = <[next_id self := {| node1 := parent; node2 := child;
                            segments := segments; style := None |}]>
         (edge_objs self)
  /\ match addChild parent child edge (children self) with
     | Return c =>
         fst r = Return tt /\ children (snd r) = c
         /\ edge ∈ items (snd r) /\ child ∈ items (snd r)
         /\ (forall i, i ∈ items self -> i ∈ items (snd r))
     | Raise e =>
         fst r = Raise e /\ items (snd r) = items self
         /\ children (snd r) = children self
     end
  /\ (let r := add_child Vertex_addChild self parent child segments in
      fst r = Return tt
      /\ (child, edge) ∈ default [] (children (snd r) !! item_id parent)).
Proof.
  intros edge r. unfold r, add_child, create_edge, new, bind. simpl.
  fold edge.
  split; [apply binder_add_child|split; [|split]].
  - destruct (addChild parent child edge (children self)); simpl; [|done].
    by rewrite !edge_objs_addItem.
  - destruct (addChild parent child edge (children self)); simpl; [|done].
    split; [done|]. split; [by rewrite !children_addItem|].
    split; [apply elem_of_addItem_mono, elem_of_addItem|].
    split; [apply elem_of_addItem|].
    intros i Hi. by do 2 apply elem_of_addItem_mono.
  - split; [done|]. rewrite !children_addItem. simpl.
    rewrite lookup_insert_eq. simpl. apply elem_of_cons. by left.
Qed.

End AddChildFacts.

Section AddChildExamples.

Import GraphicsScene.

(** C3 (as stated) fails.  In the scene where [node1] is the parent of
    [node2]: [add_child(node3, node2)] returns normally, the scene has one
    more item and three more bindings, and [node2] is owned by [node3] as
    well as by [node1]; [add_child(node1, node1)] returns normally too and
    makes [node1] its own child.  And whatever [Vertex.addChild] does, also
    when it raises, the binder has grown when [add_child] is left. *)
Lemma add_child_reparent_and_self :
  let r := add_child Vertex_addChild Sample.family Sample.node3 Sample.node2 1 in
  let r' := add_child Vertex_addChild Sample.family Sample.node1 Sample.node1 1 in
  let r'' := add_child Sample.addChild_raises Sample.family Sample.node1 Sample.node1 1 in
  owns (children Sample.family) Sample.node1 Sample.node2 = true
  /\ (fst r = Return tt
      /\ length (items (snd r)) = S (length (items Sample.family))
      /\ length (binder (snd r)) = (length (binder Sample.family) + 3)%nat
      /\ owns (children (snd r)) Sample.node3 Sample.node2 = true
      /\ owns (children (snd r)) Sample.node1 Sample.node2 = true)
  /\ (fst r' = Return tt
      /\ length (items (snd r')) = S (length (items Sample.family))
      /\ owns (children (snd r')) Sample.node1 Sample.node1 = true)
  /\ (fst r'' = Raise AttributeError
      /\ length (binder (snd r'')) = (length (binder Sample.family) + 3)%nat)
  /\ (forall addChild,
        let r := add_child addChild Sample.family Sample.node1 Sample.node1 1 in
        length (binder (snd r)) = (length (binder Sample.family) + 3)%nat
        /\ (fst r = Return tt ->
            length (items (snd r)) = S (length (items Sample.family)))).
Proof.
  split; [by vm_compute|]. split; [by vm_compute|].
  split; [by vm_compute|]. split; [by vm_compute|].
  intros addChild r. split.
  - unfold r. rewrite binder_add_child, length_app. reflexivity.
  - unfold r. rewrite items_add_child. unfold add_child.
    destruct (create_edge Sample.family Sample.node1 Sample.node1 1) as [e s] eqn:E.
    vm_compute in E. injection E as <- <-.
    destruct (addChild _ _ _ _); [reflexivity|discriminate].
Qed.

End AddChildExamples.

(** ** Styling the edges *)

Section StyleEdgesFacts.

Import GraphicsScene.

Lemma restyle_idemp sd sc c e : restyle sd sc c (restyle sd sc c e) = restyle sd sc c e.
Proof. done. Qed.

Lemma items_foldl_style_edge sd sc c edges self :
  items (foldl (style_edge sd sc c) self edges) = items self.
Proof.
  revert self. induction edges as [|e es IH]; intros self; [done|].
  simpl. by rewrite IH.
Qed.

Lemma edge_objs_foldl_style_edge sd sc c edges self i :
  edge_objs (foldl (style_edge sd sc c) self edges) !! i
  = if bool_decide (i ∈ item_id <$> edges)
    then restyle sd sc c <$> edge_objs self !! i
    else edge_objs self !! i.
Proof.
  revert self. induction edges as [|e es IH]; intros self; [done|].
  simpl. rewrite IH. unfold style_edge. simpl.
  destruct (decide (i = item_id e)) as [->|Hne].
  - rewrite lookup_alter_eq.
    rewrite (bool_decide_eq_true_2 (item_id e ∈ item_id e :: _))
      by (apply elem_of_cons; by left).
    case_bool_decide; [|done].
    destruct (edge_objs self !! item_id e); [|done]. simpl. by rewrite restyle_idemp.
  - rewrite lookup_alter_ne by done.
    apply (f_equal (fun b : bool => if b then _ else _)).
    apply bool_decide_ext. rewrite elem_of_cons.
    split; [intros; by right|intros [?|?]; [contradiction|assumption]].
Qed.

Lemma elem_of_edges_of self edge :
  edge ∈ items self -> isinstance_Edge edge = true ->
  item_id edge ∈ item_id <$> List.filter isinstance_Edge (items self).
Proof.
  intros Hin He. apply list_elem_of_fmap. exists edge. split; [done|].
  apply list_elem_of_In, filter_In. split; [by apply list_elem_of_In|done].
Qed.

(** C4.  With [style_default] one of [Bubbles], [Bars], [Plain] and
    [collapsed] its counterpart, [styleEdges(style_default, cutoff)] returns
    normally and leaves every edge of the scene with its segment count and
    with the style [style_default] when the cutoff is 0 or the segment count
    is at most the cutoff, and with [collapsed] otherwise. *)
Theorem styleEdges_by_cutoff self style_default collapsed cutoff :
  (style_default, collapsed)
    ∈ [(Bubbles, DotsWithText); (Bars, Collapsed); (Plain, PlainWithText)] ->
  exists self',
    styleEdges self style_default cutoff = (Return tt, self')
    /\ items self' = items self
    /\ forall edge o,
         edge ∈ items self -> isinstance_Edge edge = true ->
         edge_objs self !! item_id edge = Some o ->
         exists o',
           edge_objs self' !! item_id edge = Some o'
           /\ segments o' = segments o
           /\ style o'
              = Some (if bool_decide (cutoff = 0)%Z then style_default
                      else if bool_decide (segments o ≤ cutoff)%Z
                           then style_default else collapsed).
Proof.
  intros Hpair.
  assert (style_cutoff style_default = Some collapsed) as Hsc.
  { repeat (apply elem_of_cons in Hpair as [[= -> ->]|Hpair]; [done|]).
    by apply elem_of_nil in Hpair. }
  unfold styleEdges. rewrite Hsc. eexists. split; [done|].
  split; [apply items_foldl_style_edge|].
  intros edge o Hin He Ho.
  rewrite edge_objs_foldl_style_edge.
  rewrite bool_decide_eq_true_2 by (by apply elem_of_edges_of).
  rewrite Ho. simpl. eexists. split; [done|]. split; [done|].
  simpl. f_equal. unfold cutoff_or_inf. by case_bool_decide.
Qed.

(** C10.  With a [style_default] that is none of [Bubbles], [Bars],
    [Plain], [styleEdges] raises [KeyError] and the scene, every edge style
    in it, is what it was. *)
Theorem styleEdges_unknown_style self style_default cutoff :
  style_default ∉ [Bubbles; Bars; Plain] ->
  styleEdges self style_default cutoff = (Raise KeyError, self).
Proof.
  intros Hnot. unfold styleEdges.
  destruct style_default; try done; exfalso; apply Hnot; set_solver.
Qed.

End StyleEdgesFacts.

Section StyleEdgesExamples.

Import GraphicsScene.

(** [styleEdges(Bubbles, 3)] on the sample scene: the edge with 3 segments
    gets [Bubbles], the edge with 4 segments gets [DotsWithText]. *)
Lemma styleEdges_by_cutoff_witness :
  exists self',
    styleEdges Sample.family Bubbles 3 = (Return tt, self')
    /\ segments <$> edge_objs Sample.family !! 2%nat = Some 3%Z
    /\ style <$> edge_objs self' !! 2%nat = Some (Some Bubbles)
    /\ segments <$> edge_objs Sample.family !! 4%nat = Some 4%Z
    /\ style <$> edge_objs self' !! 4%nat = Some (Some DotsWithText).
Proof.
  destruct (styleEdges_by_cutoff Sample.family Bubbles DotsWithText 3)
    as (self' & Hs & _ & Hall); [by_decide|].
  exists self'. split; [exact Hs|].
  destruct (Hall Sample.edge12
              {| node1 := Sample.node1; node2 := Sample.node2;
                 segments := 3; style := None |})
    as (o2 & H2 & _ & Hstyle2); [by_decide|reflexivity|reflexivity|].
  destruct (Hall Sample.edge13
              {| node1 := Sample.node1; node2 := Sample.node3;
                 segments := 4; style := None |})
    as (o3 & H3 & _ & Hstyle3); [by_decide|reflexivity|reflexivity|].
  simpl in H2, H3. rewrite H2, H3. simpl. rewrite Hstyle2, Hstyle3.
  repeat split.
Defined.

(** [styleEdges(Collapsed, 3)] on the sample scene raises and changes
    nothing. *)
Lemma styleEdges_unknown_style_witness :
  styleEdges Sample.family Collapsed 3 = (Raise KeyError, Sample.family).
Proof. apply styleEdges_unknown_style. by_decide. Defined.

End StyleEdgesExamples.

(** ** Exports *)

Section ExportFacts.

Import GraphicsScene GraphicsView.

Lemma hovered_item_mouseLeaveEvent s : hovered_item (mouseLeaveEvent s) = None.
Proof. unfold mouseLeaveEvent. by destruct (hovered_item s) eqn:E. Qed.

Lemma mouseGrabberItem_mouseLeaveEvent s :
  mouseGrabberItem (mouseLeaveEvent s) = mouseGrabberItem s.
Proof. unfold mouseLeaveEvent. by destruct (hovered_item s). Qed.

Lemma items_mouseLeaveEvent s : items (mouseLeaveEvent s) = items s.
Proof. unfold mouseLeaveEvent. by destruct (hovered_item s). Qed.

(** What an export that renders on [device] leaves behind. *)
Lemma export_after_clear_mouse view device f :
  let after := render (clear_mouse view) device f in
  hovered_item (scene after) = None
  /\ mouseGrabberItem (scene after) = mouseGrabberItem (scene view)
  /\ items (scene after) = items (scene view)
  /\ rendered after
     = rendered view
       ++ [ {| surface := device; file := f; painted_hovered := None;
               painted_grabber := mouseGrabberItem (scene view) |} ].
Proof.
  simpl. rewrite hovered_item_mouseLeaveEvent, mouseGrabberItem_mouseLeaveEvent,
    items_mouseLeaveEvent. done.
Qed.

(** C6 (as amended).  Each of the three exports clears the hovered item
    before it renders, so that the rendering shows none and the hovered item
    is [None] when the export returns, whatever was hovered before; the item
    that grabbed the mouse is left as it was, and is what the rendering and
    the scene after the export have. *)
Theorem export_clears_hover view f :
  (let after := export_svg view f in
   hovered_item (scene after) = None
   /\ mouseGrabberItem (scene after) = mouseGrabberItem (scene view)
   /\ last (rendered after)
      = Some {| surface := Svg; file := f; painted_hovered := None;
                painted_grabber := mouseGrabberItem (scene view) |})
  /\ (let after := export_pdf view f in
      hovered_item (scene after) = None
      /\ mouseGrabberItem (scene after) = mouseGrabberItem (scene view)
      /\ last (rendered after)
         = Some {| surface := Pdf; file := f; painted_hovered := None;
                   painted_grabber := mouseGrabberItem (scene view) |})
  /\ (let after := export_png view f in
      hovered_item (scene after) = None
      /\ mouseGrabberItem (scene after) = mouseGrabberItem (scene view)
      /\ last (rendered after)
         = Some {| surface := Png; file := f; painted_hovered := None;
                   painted_grabber := mouseGrabberItem (scene view) |}).
Proof.
  unfold export_svg, export_pdf, export_png.
  split; [|split].
  - destruct (export_after_clear_mouse view Svg f) as (Hh & Hg & _ & Hr).
    split; [exact Hh|]. split; [exact Hg|]. rewrite Hr. apply last_snoc.
  - destruct (export_after_clear_mouse view Pdf f) as (Hh & Hg & _ & Hr).
    split; [exact Hh|]. split; [exact Hg|]. rewrite Hr. apply last_snoc.
  - destruct (export_after_clear_mouse view Png f) as (Hh & Hg & _ & Hr).
    split; [exact Hh|]. split; [exact Hg|]. rewrite Hr. apply last_snoc.
Qed.

(** C6 (as stated) fails for the grabbed item.  After the pointer has moved
    onto the vertex and the left button has been pressed on it, the vertex
    is both hovered and grabbed; after each export it is still the item that
    grabbed the mouse. *)
Lemma export_keeps_grabber :
  let view := {| scene := Sample.pressing; rendered := [] |} in
  hovered_item (scene view) = Some Sample.the_vertex
  /\ mouseGrabberItem (scene view) = Some Sample.the_vertex
  /\ hovered_item (scene (export_svg view "graph.svg")) = None
  /\ mouseGrabberItem (scene (export_svg view "graph.svg")) = Some Sample.the_vertex
  /\ mouseGrabberItem (scene (export_pdf view "graph.pdf")) = Some Sample.the_vertex
  /\ mouseGrabberItem (scene (export_png view "graph.png")) = Some Sample.the_vertex.
Proof. vm_compute. repeat split. Qed.

End ExportFacts.

(** ** The highlighted edge of the prototype *)

Section DemoFacts.

Import Demo.

(** C9 fails on the code after a release.  The pointer moves onto a child
    vertex, the left button is pressed on it and released.  While hovered and
    while pressed, the edge to the parent is the highlighted edge; after the
    release nothing is pressed and the child is still hovered, so the edge
    derived from the hovered item is the edge to the parent, and yet no edge
    is highlighted.  A further move of the pointer within the child does not
    bring the highlight back. *)
Theorem release_drops_highlight :
  let after_move := snd (run (take 1 Sample.hover_press_release) Sample.demo) in
  let after_press := snd (run (take 2 Sample.hover_press_release) Sample.demo) in
  let r := run Sample.hover_press_release Sample.demo in
  let r' := run Sample.hover_press_release_move Sample.demo in
  (lighlighted_edge after_move = Some Sample.tree_edge
   /\ flag after_move Sample.tree_edge state_highlighted = true)
  /\ (pressed_item after_press = Some Sample.child
      /\ lighlighted_edge after_press = Some Sample.tree_edge)
  /\ (fst r = Return tt
      /\ pressed_item (snd r) = None
      /\ hovered_item (snd r) = Some Sample.child
      /\ derived_edge (snd r) = Return (Some Sample.tree_edge)
      /\ lighlighted_edge (snd r) = None
      /\ flag (snd r) Sample.tree_edge state_highlighted = false)
  /\ (fst r' = Return tt
      /\ hovered_item (snd r') = Some Sample.child
      /\ derived_edge (snd r') = Return (Some Sample.tree_edge)
      /\ lighlighted_edge (snd r') = None).
Proof. vm_compute. repeat split. Qed.

End DemoFacts.

(** * Further properties *)

(** ** The division resolver, beyond the claims *)

Section ResolverFacts.

Import DivisionListModel.

Variable isValidColor : string -> bool.

Lemma recolor_by_keys P ds : recolor P ds = zip_palette P (key <$> ds).
Proof.
  unfold recolor, zip_palette.
  generalize (Palette.getitem P). intros f. revert f.
  induction ds as [|d ds IH]; intros f; [done|].
  simpl. f_equal. apply (IH (f ∘ S)).
Qed.

Lemma keys_zip_palette P K : key <$> zip_palette P K = K.
Proof.
  unfold zip_palette. generalize (Palette.getitem P). intros f. revert f.
  induction K as [|k K IH]; intros f; [done|].
  simpl. f_equal. apply (IH (f ∘ S)).
Qed.

Lemma keys_recolor P ds : key <$> recolor P ds = key <$> ds.
Proof. by rewrite recolor_by_keys, keys_zip_palette. Qed.

Lemma rowCount_signal self : rowCount (signal self) = rowCount self.
Proof. unfold rowCount. by rewrite divisions_signal. Qed.

Lemma length_set_color ds i c : length (set_color ds i c) = length ds.
Proof. unfold set_color. apply length_alter. Qed.

(** The model [setData] returns, in terms of the three conditions. *)
Lemma setData_cases self index value role :
  (index_ok self index = true /\ role = EditRole
   /\ isValidColor (normalize value) = true
   /\ setData isValidColor self index value role
      = (true, signal (with_divisions self
                 (set_color (_divisions self) (Z.to_nat (row index))
                    (normalize value)))))
  \/ ((index_ok self index = false \/ role <> EditRole
       \/ isValidColor (normalize value) = false)
      /\ setData isValidColor self index value role = (false, self)).
Proof.
  unfold setData.
  destruct (index_ok self index); simpl; [|right; auto].
  destruct role; try (right; split; [right; left|]; done).
  destruct (isValidColor (normalize value)); simpl; [left|right]; auto.
Qed.

Lemma divisions_setData self index value role :
  key <$> _divisions (snd (setData isValidColor self index value role))
  = key <$> _divisions self.
Proof.
  destruct (setData_cases self index value role)
    as [(_ & _ & _ & ->)|[_ ->]]; [|done].
  simpl. rewrite divisions_signal. simpl. apply set_color_keys.
Qed.

(** X1.  An accepted colour edit is read back by [data]: the edited row has
    the normalised colour under [EditRole], its key under [DisplayRole] is
    what it was, every other row reads as before under every role, and the
    row count is unchanged. *)
Theorem setData_then_data self index value :
  isValidColor (normalize value) = true ->
  index_ok self index = true ->
  let self' := snd (setData isValidColor self index value EditRole) in
  data self' index EditRole = VStr (normalize value)
  /\ data self' index DisplayRole = data self index DisplayRole
  /\ rowCount self' = rowCount self
  /\ forall index' role,
       row index' <> row index ->
       data self' index' role = data self index' role.
Proof.
  intros Hok Hidx self'.
  assert (_divisions self'
          = set_color (_divisions self) (Z.to_nat (row index)) (normalize value))
    as Hds.
  { unfold self'. rewrite setData_valid by done. simpl. by rewrite divisions_signal. }
  assert (rowCount self' = rowCount self) as Hrows.
  { unfold rowCount. by rewrite Hds, length_set_color. }
  assert (forall i, index_ok self' i = index_ok self i) as Hsame.
  { intros i. unfold index_ok. by rewrite Hrows. }
  destruct (index_ok_lookup self index Hidx) as [d Hd].
  split; [|split; [|split; [done|]]].
  - unfold data. rewrite Hsame, Hidx, Hds. simpl.
    unfold set_color. by rewrite list_lookup_alter_eq, Hd.
  - unfold data. rewrite Hsame, Hidx, Hds. simpl.
    unfold set_color. by rewrite list_lookup_alter_eq, Hd.
  - intros index' role Hrow. unfold data. rewrite Hsame.
    destruct (index_ok self index') eqn:Hidx'; simpl; [|done].
    rewrite Hds, set_color_lookup_ne; [done|].
    unfold index_ok in Hidx, Hidx'.
    apply andb_true_iff in Hidx as [_ Hidx%bool_decide_eq_true].
    apply andb_true_iff in Hidx' as [_ Hidx'%bool_decide_eq_true].
    lia.
Qed.

(** X2.  [setData] returns [True] exactly when the index is valid and in
    range, the role is [EditRole] and Qt accepts the normalised colour; in
    every other case the model it leaves is the model it got, so nothing is
    stored and nothing is emitted. *)
Theorem setData_succeeds_iff self index value role :
  (fst (setData isValidColor self index value role) = true
   <-> index_ok self index = true /\ role = EditRole
       /\ isValidColor (normalize value) = true)
  /\ (fst (setData isValidColor self index value role) = false ->
      snd (setData isValidColor self index value role) = self).
Proof.
  destruct (setData_cases self index value role)
    as [(H1 & H2 & H3 & ->)|[Hno ->]]; simpl.
  - split; [split; auto|done].
  - split; [|done]. split; [done|].
    intros (H1 & H2 & H3). destruct Hno as [?|[?|?]]; congruence.
Qed.

(** X3.  A palette swap discards colour edits: the divisions after
    [set_palette(P)] are the same whether or not a [setData] came before, and
    they have the keys the model had. *)
Theorem set_palette_discards_edits self index value role P :
  let edited := snd (setData isValidColor self index value role) in
  _divisions (set_palette edited P) = _divisions (set_palette self P)
  /\ key <$> _divisions (set_palette self P) = key <$> _divisions self
  /\ rowCount (set_palette edited P) = rowCount self.
Proof.
  intros edited.
  assert (_divisions (set_palette edited P) = _divisions (set_palette self P)) as H.
  { rewrite !divisions_set_palette, !recolor_by_keys.
    unfold edited. by rewrite divisions_setData. }
  split; [done|]. split.
  - rewrite divisions_set_palette. apply keys_recolor.
  - unfold rowCount. rewrite H, divisions_set_palette.
    unfold recolor. by rewrite length_imap.
Qed.

Lemma palette_do_call self c : _palette (do_call isValidColor self c) = _palette self.
Proof.
  destruct c as [K|P|index value role]; simpl.
  - unfold set_divisions_from_keys, signal. simpl. by destruct (connected self).
  - unfold set_palette, signal. simpl. by destruct (connected self).
  - destruct (setData_cases self index value role)
      as [(_ & _ & _ & ->)|[_ ->]]; [|done].
    simpl. unfold signal. simpl. by destruct (connected self).
Qed.

Lemma connected_do_call self c :
  connected (do_call isValidColor self c) = connected self.
Proof.
  destruct c as [K|P|index value role]; simpl.
  - unfold set_divisions_from_keys. by rewrite connected_signal.
  - unfold set_palette. by rewrite connected_signal.
  - destruct (setData_cases self index value role)
      as [(_ & _ & _ & ->)|[_ ->]]; [|done].
    simpl. by rewrite connected_signal.
Qed.

(** A call either leaves the model as it is or ends by emitting the colour
    map of the model it leaves. *)
Lemma do_call_emits self c :
  connected self = true ->
  do_call isValidColor self c = self
  \/ last (colorMapChanged (do_call isValidColor self c))
     = Some (get_color_map (do_call isValidColor self c)).
Proof.
  intros Hconn. destruct c as [K|P|index value role]; simpl.
  - right. unfold set_divisions_from_keys.
    rewrite emitted_signal by done. apply last_snoc.
  - right. unfold set_palette. rewrite emitted_signal by done. apply last_snoc.
  - destruct (setData_cases self index value role)
      as [(_ & _ & _ & ->)|[_ ->]]; [right|by left].
    simpl. rewrite emitted_signal by done. apply last_snoc.
Qed.

Lemma divisions_init names P : _divisions (init names P) = zip_palette P names.
Proof.
  unfold init. cbn [_divisions].
  rewrite divisions_set_palette, divisions_set_divisions_from_keys.
  apply recolor_zip_palette.
Qed.

Lemma emitted_init names P :
  colorMapChanged (init names P) = [] /\ connected (init names P) = true.
Proof. done. Qed.

(** X4.  The palette of the constructor is the one [set_divisions_from_keys]
    takes its colours from, whatever calls came in between: [set_palette]
    recolours the divisions and stores the default colour, and does not
    store the palette. *)
Theorem keys_use_constructor_palette names P0 cs K :
  let self := do_calls isValidColor (init names P0) cs in
  _palette self = P0
  /\ _divisions (set_divisions_from_keys self K) = zip_palette P0 K.
Proof.
  intros self.
  assert (_palette self = P0) as HP.
  { unfold self, do_calls. induction cs as [|c cs IH] using rev_ind.
    - simpl. unfold set_palette, set_divisions_from_keys, signal. done.
    - rewrite foldl_app. simpl. by rewrite palette_do_call. }
  split; [done|]. by rewrite divisions_set_divisions_from_keys, HP.
Qed.

(** X5.  In every model reached from the constructor by calls of
    [set_divisions_from_keys], [set_palette] and [setData], the signals are
    connected, and either nothing has been emitted and the divisions are
    those of the constructor, or the colour map emitted last is the colour
    map of the model as it is. *)
Theorem last_emitted_is_current names P0 cs :
  let self := do_calls isValidColor (init names P0) cs in
  connected self = true
  /\ ((colorMapChanged self = [] /\ _divisions self = zip_palette P0 names)
      \/ last (colorMapChanged self) = Some (get_color_map self)).
Proof.
  intros self. unfold self, do_calls.
  induction cs as [|c cs IH] using rev_ind.
  - cbn [foldl]. destruct (emitted_init names P0) as [Hnone Hconn].
    split; [done|]. left. split; [done|apply divisions_init].
  - rewrite foldl_app. simpl. destruct IH as [Hconn IH].
    split; [by rewrite connected_do_call|].
    destruct (do_call_emits (foldl (do_call isValidColor) (init names P0) cs) c Hconn)
      as [->|Hlast]; [done|by right].
Qed.

Lemma zip_palette_lookup P K i :
  zip_palette P K !! i
  = (fun k => {| key := k; color := Palette.getitem P i |}) <$> K !! i.
Proof. unfold zip_palette. apply list_lookup_imap. Qed.

(** X6.  A model built by the constructor from [names] and a palette has
    emitted nothing and has one row per name; [data] reads row [i] as the
    name under [DisplayRole], as the palette colour of index [i] under
    [EditRole] and as the icon of that colour under [DecorationRole], and
    reads [None] for an invalid index and for a row below 0 or at or beyond
    the row count. *)
Theorem init_then_data names P i k :
  names !! i = Some k ->
  let self := init names P in
  let index := {| isValid := true; row := Z.of_nat i |} in
  colorMapChanged self = []
  /\ rowCount self = Z.of_nat (length names)
  /\ data self index DisplayRole = VStr k
  /\ data self index EditRole = VStr (Palette.getitem P i)
  /\ data self index DecorationRole = VIcon (Palette.getitem P i)
  /\ forall index' role,
       isValid index' = false \/ (row index' < 0)%Z
       \/ (Z.of_nat (length names) <= row index')%Z ->
       data self index' role = VNone.
Proof.
  intros Hk self index.
  assert (rowCount self = Z.of_nat (length names)) as Hrows.
  { unfold rowCount, self. by rewrite divisions_init, length_zip_palette. }
  assert (index_ok self index = true) as Hidx.
  { unfold index_ok. simpl. apply bool_decide_eq_true.
    apply lookup_lt_Some in Hk. lia. }
  assert (_divisions self !! Z.to_nat (row index)
          = Some {| key := k; color := Palette.getitem P i |}) as Hrow.
  { unfold self, index. cbn [row].
    rewrite Nat2Z.id, divisions_init, zip_palette_lookup. by rewrite Hk. }
  split; [apply emitted_init|]. split; [done|].
  unfold data. rewrite Hidx, Hrow. simpl.
  split; [done|]. split; [done|]. split; [done|].
  intros index' role Hout.
  assert (index_ok self index' = false) as ->; [|done].
  unfold index_ok. rewrite Hrows.
  destruct Hout as [->|Hout]; [done|].
  apply andb_false_iff. right. apply bool_decide_eq_false. lia.
Qed.

Lemma dict_of_absent ds k : k ∉ key <$> ds -> dict_of ds !! k = None.
Proof.
  induction ds as [|d ds IH] using rev_ind; intros Hk; [done|].
  rewrite dict_of_snoc. rewrite fmap_app in Hk. simpl in Hk.
  rewrite lookup_insert_ne; [apply IH|]; intros ?; apply Hk;
    apply elem_of_app; [by left|right]. subst. apply list_elem_of_singleton. done.
Qed.

Lemma dict_of_unique ds i d :
  NoDup (key <$> ds) -> ds !! i = Some d ->
  dict_of ds !! key d = Some (color d).
Proof.
  revert i. induction ds as [|x ds IH] using rev_ind; intros i Hnd Hi; [done|].
  rewrite dict_of_snoc. rewrite fmap_app in Hnd. simpl in Hnd.
  apply NoDup_app in Hnd as (Hnd & Hnot & _).
  destruct (decide (i = length ds)) as [->|Hne].
  - rewrite list_lookup_middle in Hi by done. injection Hi as ->.
    apply lookup_insert_eq.
  - assert (i < length ds) as Hlt.
    { apply lookup_lt_Some in Hi. rewrite length_app in Hi. simpl in Hi. lia. }
    rewrite lookup_app_l in Hi by done.
    rewrite lookup_insert_ne; [by eapply IH|].
    intros Heq. apply (Hnot (key d)).
    + apply list_elem_of_fmap. exists d. split; [done|].
      apply list_elem_of_lookup. eauto.
    + rewrite <- Heq. apply list_elem_of_singleton. done.
Qed.

(** X7.  With distinct keys, an accepted colour edit is what the colour map
    built afterwards gives for the key of the edited row, and every other
    key is looked up as before the edit. *)
Theorem edit_reaches_color_map self index value d :
  isValidColor (normalize value) = true ->
  index_ok self index = true ->
  NoDup (key <$> _divisions self) ->
  _divisions self !! Z.to_nat (row index) = Some d ->
  let self' := snd (setData isValidColor self index value EditRole) in
  cm_dict (get_color_map self') !! key d = Some (normalize value)
  /\ forall k, k <> key d ->
       cm_dict (get_color_map self') !! k = cm_dict (get_color_map self) !! k.
Proof.
  intros Hok Hidx Hnd Hd self'.
  assert (_divisions self'
          = set_color (_divisions self) (Z.to_nat (row index)) (normalize value))
    as Hds.
  { unfold self'. rewrite setData_valid by done. simpl. by rewrite divisions_signal. }
  assert (NoDup (key <$> _divisions self')) as Hnd'.
  { by rewrite Hds, set_color_keys. }
  unfold get_color_map. simpl. split.
  - apply (dict_of_unique (_divisions self') (Z.to_nat (row index))
             {| key := key d; color := normalize value |} Hnd').
    rewrite Hds. unfold set_color. by rewrite list_lookup_alter_eq, Hd.
  - intros k Hk.
    destruct (decide (k ∈ key <$> _divisions self)) as [Hin|Hout].
    + apply list_elem_of_fmap in Hin as (d' & -> & Hin).
      apply list_elem_of_lookup in Hin as [j Hj].
      assert (j <> Z.to_nat (row index)) as Hne by (intros ->; congruence).
      rewrite (dict_of_unique (_divisions self) j d' Hnd Hj).
      apply (dict_of_unique (_divisions self') j d' Hnd').
      rewrite Hds. by rewrite set_color_lookup_ne.
    + rewrite (dict_of_absent (_divisions self)) by done.
      apply dict_of_absent. by rewrite Hds, set_color_keys.
Qed.

End ResolverFacts.

Section ResolverExamples.

Import DivisionListModel.

(** On the model of ['X', 'Y']: after the edit of row 0 to ["ff0000"], row 0
    reads ["#ff0000"] and still shows ['X']. *)
Lemma setData_then_data_witness :
  let self' := snd (setData QColor.isValidColor Sample.model Sample.index0
                      "ff0000" EditRole) in
  data self' Sample.index0 EditRole = VStr "#ff0000"
  /\ data self' Sample.index0 DisplayRole = VStr "X".
Proof.
  intros self'.
  destruct (setData_then_data QColor.isValidColor Sample.model Sample.index0
              "ff0000" eq_refl eq_refl) as (H1 & H2 & _).
  split; [exact H1|]. unfold self'. rewrite H2. reflexivity.
Defined.

(** The constructor on ['X', 'Y'] and the spring palette. *)
Lemma init_then_data_witness :
  data (init ["X"; "Y"] Sample.spring) {| isValid := true; row := 1 |} DisplayRole
  = VStr "Y"
  /\ data (init ["X"; "Y"] Sample.spring) {| isValid := true; row := 1 |} EditRole
     = VStr "#1f78b4"
  /\ data (init ["X"; "Y"] Sample.spring) {| isValid := true; row := 2 |} EditRole
     = VNone.
Proof.
  destruct (init_then_data ["X"; "Y"] Sample.spring 1 "Y" eq_refl)
    as (_ & _ & H1 & H2 & _ & Hout).
  split; [exact H1|]. split; [exact H2|].
  apply Hout. right. right. simpl. lia.
Defined.

(** On the model of ['X', 'Y']: the edit of row 0 reaches the colour map
    under ['X'] and leaves ['Y'] alone. *)
Lemma edit_reaches_color_map_witness :
  let self' := snd (setData QColor.isValidColor Sample.model Sample.index0
                      "ff0000" EditRole) in
  cm_dict (get_color_map self') !! "X" = Some "#ff0000"
  /\ cm_dict (get_color_map self') !! "Y"
     = cm_dict (get_color_map Sample.model) !! "Y".
Proof.
  intros self'.
  destruct (edit_reaches_color_map QColor.isValidColor Sample.model Sample.index0
              "ff0000" {| key := "X"; color := "#a6cee3" |}
              eq_refl eq_refl ltac:(by_decide) eq_refl) as [H1 H2].
  split; [exact H1|]. apply H2. discriminate.
Defined.

End ResolverExamples.

(** ** Interaction with the scene, beyond the claims *)

Section InteractionFacts.

Import GraphicsScene.

Variable items_at : list Item -> QPointF -> list Item.
Variable distanceToLine : QPointF -> Item -> Qc.

(** What the loop can return: the closest edge it was entered with, or an
    item of the list of a class it does not skip. *)
Lemma loop_result point ie il ci cd l i :
  getItemAtPos_loop distanceToLine point ie il ci cd l = Some i ->
  ci = Some i
  \/ (i ∈ l
      /\ (isinstance_Vertex i = true
          \/ (isinstance_Label i = true /\ il = false)
          \/ (isinstance_Edge i = true /\ ie = false))).
Proof.
  revert ci cd. induction l as [|x l IH]; intros ci cd; simpl; [auto|].
  destruct (isinstance_Vertex x) eqn:EV.
  { intros [= <-]. right. split; [by left|auto]. }
  destruct (isinstance_Label x && negb il) eqn:EL.
  { intros [= <-]. apply andb_true_iff in EL as [EL Hil%negb_true_iff].
    right. split; [by left|auto]. }
  assert (forall ci' cd',
            getItemAtPos_loop distanceToLine point ie il ci' cd' l = Some i ->
            (ci' = ci \/ (ci' = Some x /\ isinstance_Edge x = true /\ ie = false)) ->
            ci = Some i
            \/ (i ∈ x :: l
                /\ (isinstance_Vertex i = true
                    \/ (isinstance_Label i = true /\ il = false)
                    \/ (isinstance_Edge i = true /\ ie = false)))) as Hrec.
  { intros ci' cd' Hr Hci. destruct (IH ci' cd' Hr) as [Heq|[Hin Hcls]].
    - destruct Hci as [->|(-> & HE & Hie)]; [by left|].
      injection Heq as <-. right. split; [by left|auto].
    - right. split; [by right|done]. }
  destruct (isinstance_Edge x && negb ie) eqn:EE.
  - apply andb_true_iff in EE as [EE Hie%negb_true_iff].
    destruct (lt _ cd); intros Hr; eapply Hrec; eauto.
  - intros Hr. eapply Hrec; eauto.
Qed.

Lemma getItemAtPos_result self pos ignore_edges ignore_labels i :
  getItemAtPos items_at distanceToLine self pos ignore_edges ignore_labels = Some i ->
  i ∈ items_at (items self) pos
  /\ (isinstance_Vertex i = true
      \/ (isinstance_Label i = true
          /\ default (negb (Settings.label_movement (settings self))) ignore_labels
             = false)
      \/ (isinstance_Edge i = true /\ ignore_edges = false)).
Proof.
  unfold getItemAtPos. intros Hr.
  apply loop_result in Hr as [?|[Hin Hcls]]; [done|].
  split; [done|]. by destruct ignore_labels.
Qed.

(** X8.  Whatever [getItemAtPos] returns is one of the items Qt reported
    under the point, and it is a vertex, or a label when labels are not
    ignored, or an edge when edges are not ignored: never an item of another
    class, never an ignored edge or label. *)
Theorem getItemAtPos_returns_candidate self pos ignore_edges ignore_labels i :
  getItemAtPos items_at distanceToLine self pos ignore_edges ignore_labels = Some i ->
  i ∈ items_at (items self) pos
  /\ (isinstance_Vertex i = true
      \/ (isinstance_Label i = true
          /\ default (negb (Settings.label_movement (settings self))) ignore_labels
             = false)
      \/ (isinstance_Edge i = true /\ ignore_edges = false)).
Proof. apply getItemAtPos_result. Qed.

Lemma mouseGrabberItem_mouseMoveEvent self ev :
  mouseGrabberItem (mouseMoveEvent items_at distanceToLine self ev)
  = mouseGrabberItem self.
Proof.
  unfold mouseMoveEvent.
  destruct (mouseGrabberItem self) eqn:Hg; [done|].
  destruct (buttons ev); [|done].
  destruct (hovered_item self); [case_bool_decide|];
    destruct (getItemAtPos _ _ _ _ _ _); done.
Qed.

Lemma class_disjoint i :
  isinstance_Vertex i = true \/ isinstance_Label i = true ->
  isinstance_Edge i = false.
Proof.
  unfold isinstance_Vertex, isinstance_Label, isinstance_Edge.
  destruct (item_class i); intros [?|?]; done.
Qed.

(** X9.  A press grabs only what is under the pointer and only with the
    left button: when nothing holds the mouse before [mousePressEvent] and
    an item holds it afterwards, the button is the left one and the item is
    one Qt reported under the pointer, a vertex or, with label movement
    switched on, a label; an edge is never grabbed. *)
Theorem press_grabs_vertex_or_label self ev i :
  mouseGrabberItem self = None ->
  mouseGrabberItem (mousePressEvent items_at distanceToLine self ev) = Some i ->
  button ev = LeftButton
  /\ i ∈ items_at (items self) (scenePos ev)
  /\ isinstance_Edge i = false
  /\ (isinstance_Vertex i = true
      \/ (isinstance_Label i = true
          /\ Settings.label_movement (settings self) = true)).
Proof.
  intros Hnone. unfold mousePressEvent.
  rewrite mouseGrabberItem_mouseMoveEvent.
  case_bool_decide as Hb; [|congruence].
  destruct (getItemAtPos _ _ _ _ _ _) as [item|] eqn:Hitem; [|congruence].
  simpl. intros [= ->].
  apply getItemAtPos_result in Hitem as [Hin Hcls].
  split; [done|]. split; [done|]. simpl in Hcls.
  destruct Hcls as [HV|[[HL Hlm%negb_false_iff]|[_ ?]]]; [| |done].
  - split; [apply class_disjoint|]; auto.
  - split; [apply class_disjoint|]; auto.
Qed.

(** X10.  A release of the left button always leaves the mouse ungrabbed,
    whatever held it; a release of another button, like every move, leaves
    the grabber as it was. *)
Theorem release_ungrabs self ev :
  mouseGrabberItem (mouseReleaseEvent items_at distanceToLine self ev)
  = (if bool_decide (button ev = LeftButton) then None else mouseGrabberItem self)
  /\ mouseGrabberItem (mouseMoveEvent items_at distanceToLine self ev)
     = mouseGrabberItem self
  /\ mouseGrabberItem (mouseDoubleClickEvent items_at distanceToLine self ev)
     = mouseGrabberItem self
  /\ mouseGrabberItem (mouseLeaveEvent self) = mouseGrabberItem self.
Proof.
  split; [|split; [apply mouseGrabberItem_mouseMoveEvent|split]].
  - unfold mouseReleaseEvent. rewrite mouseGrabberItem_mouseMoveEvent.
    case_bool_decide; [|done]. by destruct (mouseGrabberItem self) eqn:Hg.
  - unfold mouseDoubleClickEvent. case_bool_decide; [|done].
    by destruct (getItemAtPos _ _ _ _ _ _).
  - apply mouseGrabberItem_mouseLeaveEvent.
Qed.

Lemma hover_of_snoc log c : hover_of (log ++ [c]) = hover_step (hover_of log) c.
Proof. unfold hover_of. by rewrite foldl_app. Qed.

Lemma hover_of_call self item h cur :
  hover_of (handled self) = Some cur ->
  hover_of (handled (call self item h)) = hover_step (Some cur) (item, h).
Proof. intros H. simpl. by rewrite hover_of_snoc, H. Qed.

Lemma hover_ok_call_other self item h :
  h <> hoverEnterEvent -> h <> hoverMoveEvent -> h <> hoverLeaveEvent ->
  hover_ok self -> hover_ok (call self item h).
Proof.
  unfold hover_ok. intros ? ? ? H.
  rewrite (hover_of_call self item h _ H). by destruct h.
Qed.

Lemma hover_ok_with_mouseGrabberItem self g :
  hover_ok self -> hover_ok (with_mouseGrabberItem self g).
Proof. done. Qed.

Lemma hover_ok_enter self item :
  hover_of (handled self) = Some None ->
  hover_ok (match item with
            | Some i => call (with_hovered_item self item) i hoverEnterEvent
            | None => with_hovered_item self item
            end).
Proof.
  intros H. destruct item as [i|]; unfold hover_ok; [|done].
  by rewrite (hover_of_call (with_hovered_item self (Some i)) i _ None).
Qed.

Lemma hover_ok_mouseLeaveEvent self : hover_ok self -> hover_ok (mouseLeaveEvent self).
Proof.
  unfold hover_ok, mouseLeaveEvent. intros H.
  destruct (hovered_item self) as [h|] eqn:Hh; [|by rewrite Hh].
  simpl. rewrite hover_of_snoc, H. simpl. by rewrite bool_decide_eq_true_2.
Qed.

Lemma hover_ok_mouseMoveEvent self ev :
  hover_ok self -> hover_ok (mouseMoveEvent items_at distanceToLine self ev).
Proof.
  intros H. unfold mouseMoveEvent.
  destruct (mouseGrabberItem self); [by apply hover_ok_call_other|].
  destruct (buttons ev); [|done].
  destruct (hovered_item self) as [h|] eqn:Hh.
  - case_bool_decide as Heq.
    + unfold hover_ok in *. rewrite (hover_of_call self h _ _ H), Hh. simpl.
      by rewrite bool_decide_eq_true_2, Hh.
    + apply (hover_ok_enter (call self h hoverLeaveEvent)).
      rewrite (hover_of_call self h _ _ H), Hh. simpl.
      by rewrite bool_decide_eq_true_2.
  - apply (hover_ok_enter self). unfold hover_ok in H. by rewrite H, Hh.
Qed.

Lemma hover_ok_event self e :
  hover_ok self -> hover_ok (event items_at distanceToLine self e).
Proof.
  intros H. destruct e as [ev|ev|ev|ev|]; simpl.
  - by apply hover_ok_mouseMoveEvent.
  - unfold mousePressEvent. apply hover_ok_mouseMoveEvent.
    case_bool_decide; [|done].
    destruct (getItemAtPos _ _ _ _ _ _); [|done].
    apply hover_ok_with_mouseGrabberItem. by apply hover_ok_call_other.
  - unfold mouseReleaseEvent. apply hover_ok_mouseMoveEvent.
    case_bool_decide; [|done].
    destruct (mouseGrabberItem self); [|done].
    apply hover_ok_with_mouseGrabberItem. by apply hover_ok_call_other.
  - unfold mouseDoubleClickEvent. case_bool_decide; [|done].
    destruct (getItemAtPos _ _ _ _ _ _); [|done].
    do 2 (apply hover_ok_call_other; try done).
  - by apply hover_ok_mouseLeaveEvent.
Qed.

(** X11.  The hover calls are balanced over every sequence of scene events
    (moves, presses, releases, double clicks, leaving the scene): if so far
    every [hoverEnterEvent] went to an item while none was entered, every
    [hoverMoveEvent] and [hoverLeaveEvent] to the item entered, and the item
    entered and not left is [hovered_item], then the same holds after the
    events.  No item is entered while another one is, and none is left
    twice. *)
Theorem hover_calls_balanced self es :
  hover_of (handled self) = Some (hovered_item self) ->
  let self' := events items_at distanceToLine self es in
  hover_of (handled self') = Some (hovered_item self').
Proof.
  intros H self'. unfold self', events.
  induction es as [|e es IH] using rev_ind; [done|].
  rewrite foldl_app. simpl. by apply hover_ok_event.
Qed.

End InteractionFacts.

Section InteractionExamples.

Import GraphicsScene.

(** The label that lies over the vertex, with labels not ignored. *)
Lemma getItemAtPos_returns_candidate_witness :
  Sample.a_label ∈ [Sample.a_label; Sample.a_vertex]
  /\ isinstance_Label Sample.a_label = true.
Proof.
  destruct (getItemAtPos_returns_candidate Sample.label_over_vertex
              Sample.distance_by_id Sample.scene Sample.origin false (Some false)
              Sample.a_label eq_refl) as [Hin [HV|[[HL _]|[HE _]]]].
  - discriminate HV.
  - split; [exact Hin|exact HL].
  - discriminate HE.
Defined.

(** The left press on the vertex under the pointer. *)
Lemma press_grabs_vertex_or_label_witness :
  button Sample.left_press = LeftButton
  /\ Sample.the_vertex ∈ items Sample.hovering
  /\ isinstance_Edge Sample.the_vertex = false.
Proof.
  destruct (press_grabs_vertex_or_label Sample.all_under Sample.distance_by_id
              Sample.hovering Sample.left_press Sample.the_vertex
              eq_refl eq_refl) as (H1 & H2 & H3 & _).
  split; [exact H1|]. split; [exact H2|exact H3].
Defined.

(** Move, press, release and leave on the scene with one vertex: one
    [hoverEnterEvent], one [hoverMoveEvent] after the release and, at the
    end, one [hoverLeaveEvent]. *)
Lemma hover_calls_balanced_witness :
  let self' := events Sample.all_under Sample.distance_by_id
                 Sample.with_vertex Sample.session in
  hover_of (handled self') = Some (hovered_item self')
  /\ hovered_item self' = None
  /\ handled self'
     = [ (Sample.the_vertex, hoverEnterEvent);
         (Sample.the_vertex, item_mousePressEvent);
         (Sample.the_vertex, item_mouseMoveEvent);
         (Sample.the_vertex, item_mouseReleaseEvent);
         (Sample.the_vertex, hoverMoveEvent);
         (Sample.the_vertex, hoverLeaveEvent) ].
Proof.
  intros self'. split; [|split; reflexivity].
  apply (hover_calls_balanced Sample.all_under Sample.distance_by_id
           Sample.with_vertex Sample.session). reflexivity.
Defined.

End InteractionExamples.

(** ** Styling and populating the scene, beyond the claims *)

Section StylingFacts.

Import GraphicsScene.

Lemma foldl_style_edge_frame sd sc c edges self :
  foldl (style_edge sd sc c) self edges
  = with_edge_objs self (edge_objs (foldl (style_edge sd sc c) self edges)).
Proof.
  revert self. induction edges as [|e es IH]; intros self.
  - by destruct self.
  - simpl. by rewrite IH.
Qed.

Lemma restyle_restyle sd sc c sd' sc' c' e :
  restyle sd' sc' c' (restyle sd sc c e) = restyle sd' sc' c' e.
Proof. done. Qed.

(** X12.  Of two [styleEdges] passes the later one decides: styling with
    one default style and cutoff and then with another leaves the scene
    exactly as styling with the second alone does.  In particular a pass
    repeated with the same arguments changes nothing. *)
Theorem styleEdges_last_pass_wins self a c1 b c2 :
  a ∈ [Bubbles; Bars; Plain] -> b ∈ [Bubbles; Bars; Plain] ->
  styleEdges (snd (styleEdges self a c1)) b c2 = styleEdges self b c2
  /\ fst (styleEdges self b c2) = Return tt.
Proof.
  intros Ha Hb.
  assert (exists sa, style_cutoff a = Some sa) as [sa Hsa].
  { repeat (apply elem_of_cons in Ha as [->|Ha]; [by eexists|]).
    by apply elem_of_nil in Ha. }
  assert (exists sb, style_cutoff b = Some sb) as [sb Hsb].
  { repeat (apply elem_of_cons in Hb as [->|Hb]; [by eexists|]).
    by apply elem_of_nil in Hb. }
  unfold styleEdges. rewrite Hsa, Hsb. simpl. split; [|done]. f_equal.
  rewrite items_foldl_style_edge.
  rewrite (foldl_style_edge_frame b sb _ _ (foldl _ self _)).
  rewrite (foldl_style_edge_frame b sb _ _ self).
  rewrite (foldl_style_edge_frame a sa _ _ self) at 1. simpl. f_equal.
  apply map_eq. intros i. rewrite !edge_objs_foldl_style_edge.
  case_bool_decide; [|done].
  destruct (edge_objs self !! i); [|done]. simpl. f_equal.
Qed.

(** X13.  [styleEdges] writes styles and nothing else: whether it returns
    or raises, the items of the scene, the bindings, the hovered and the
    grabbing item, the child adjacency and the settings are what they were,
    every edge object keeps its two ends and its segment count, and an
    object that is not an edge item of the scene is not touched at all. *)
Theorem styleEdges_frame self style_default cutoff :
  let self' := snd (styleEdges self style_default cutoff) in
  items self' = items self
  /\ binder self' = binder self
  /\ hovered_item self' = hovered_item self
  /\ mouseGrabberItem self' = mouseGrabberItem self
  /\ children self' = children self
  /\ settings self' = settings self
  /\ forall i,
       segments <$> edge_objs self' !! i = segments <$> edge_objs self !! i
       /\ node1 <$> edge_objs self' !! i = node1 <$> edge_objs self !! i
       /\ node2 <$> edge_objs self' !! i = node2 <$> edge_objs self !! i
       /\ (i ∉ item_id <$> List.filter isinstance_Edge (items self) ->
           edge_objs self' !! i = edge_objs self !! i).
Proof.
  intros self'. unfold self', styleEdges.
  destruct (style_cutoff style_default) as [sc|]; simpl; [|repeat split; done].
  rewrite foldl_style_edge_frame. simpl.
  repeat split; try done;
    rewrite edge_objs_foldl_style_edge; case_bool_decide; try done;
    by destruct (edge_objs self !! i).
Qed.

End StylingFacts.

Section StylingExamples.

Import GraphicsScene.

(** Bars with cutoff 1, then Bubbles with cutoff 3, on the sample scene. *)
Lemma styleEdges_last_pass_wins_witness :
  styleEdges (snd (styleEdges Sample.family Bars 1)) Bubbles 3
  = styleEdges Sample.family Bubbles 3.
Proof.
  apply (styleEdges_last_pass_wins Sample.family Bars 1 Bubbles 3); by_decide.
Defined.

End StylingExamples.

(** ** Exports, beyond the claims *)

Section ExportCompositionFacts.

Import GraphicsScene GraphicsView.

Lemma mouseLeaveEvent_idemp s : mouseLeaveEvent (mouseLeaveEvent s) = mouseLeaveEvent s.
Proof.
  unfold mouseLeaveEvent at 1. by rewrite hovered_item_mouseLeaveEvent.
Qed.

Lemma handled_mouseLeaveEvent s :
  handled (mouseLeaveEvent s)
  = handled s ++ match hovered_item s with
                 | Some h => [(h, hoverLeaveEvent)]
                 | None => []
                 end.
Proof.
  unfold mouseLeaveEvent. destruct (hovered_item s); [done|].
  by rewrite app_nil_r.
Qed.

(** X14.  [clear_mouse] calls [hoverLeaveEvent] once, on the hovered item
    if there is one, and is idempotent; so of two exports in a row (of any
    two kinds) the second leaves the scene exactly as the first left it and
    only adds its rendering. *)
Theorem exports_in_a_row view export1 export2 f g :
  export1 ∈ [export_svg; export_pdf; export_png] ->
  export2 ∈ [export_svg; export_pdf; export_png] ->
  handled (scene (export1 view f))
  = handled (scene view) ++ match hovered_item (scene view) with
                            | Some h => [(h, hoverLeaveEvent)]
                            | None => []
                            end
  /\ scene (export2 (export1 view f) g) = scene (export1 view f)
  /\ length (rendered (export2 (export1 view f) g)) = S (S (length (rendered view))).
Proof.
  intros H1 H2.
  assert (forall e, e ∈ [export_svg; export_pdf; export_png] ->
            exists d, forall v h, e v h = render (clear_mouse v) d h) as Hexp.
  { intros e He.
    repeat (apply elem_of_cons in He as [->|He]; [by eexists|]).
    by apply elem_of_nil in He. }
  destruct (Hexp _ H1) as [d1 ->]. destruct (Hexp _ H2) as [d2 ->].
  simpl. split; [apply handled_mouseLeaveEvent|].
  split; [apply mouseLeaveEvent_idemp|].
  rewrite !length_app. simpl. lia.
Qed.

(** An SVG export and then a PNG export of the view on the scene where the
    vertex is hovered and grabbed. *)
Lemma exports_in_a_row_witness :
  let view := {| scene := Sample.pressing; rendered := [] |} in
  scene (export_png (export_svg view "graph.svg") "graph.png")
  = scene (export_svg view "graph.svg")
  /\ last (handled (scene (export_svg view "graph.svg")))
     = Some (Sample.the_vertex, hoverLeaveEvent).
Proof.
  intros view.
  destruct (exports_in_a_row view export_svg export_png "graph.svg" "graph.png")
    as (Hlog & Hsame & _).
  - apply elem_of_cons. by left.
  - apply elem_of_cons. right. apply elem_of_cons. right. apply elem_of_cons. by left.
  - split; [exact Hsame|]. rewrite Hlog. reflexivity.
Defined.

End ExportCompositionFacts.

(** ** Populating the scene *)

Section AddManyNodesFacts.

Import GraphicsScene.

Variable addChild : Item -> Item -> Item -> Children -> result Children.

(** [parent.addChild(child, edge)] returns. *)
Hypothesis addChild_returns :
  forall parent child edge c, exists c', addChild parent child edge c = Return c'.

Lemma addItem_new self item :
  item ∉ items self -> items (addItem self item) = item :: items self.
Proof. intros H. unfold addItem. by rewrite bool_decide_eq_false_2. Qed.

Lemma fresh_not_in self cls n :
  fresh self -> next_id self <= n -> {| item_id := n; item_class := cls |} ∉ items self.
Proof. intros Hf Hn Hin. apply Hf in Hin. simpl in Hin. lia. Qed.

(** One round of the inner loop: a node and an edge are created, bound and
    added. *)
Lemma add_child_of_new_node self nodex :
  fresh self ->
  let nodey := {| item_id := next_id self; item_class := Node |} in
  let edge := {| item_id := S (next_id self); item_class := Edge |} in
  exists self',
    add_child addChild (snd (create_node self)) nodex nodey 1 = (Return tt, self')
    /\ items self' = nodey :: edge :: items self
    /\ next_id self' = S (S (next_id self))
    /\ binder self' = (binder self ++ node_bindings nodey) ++ edge_bindings edge
    /\ edge_objs self'
       = <[S (next_id self) := {| node1 := nodex; node2 := nodey;
                                  segments := 1; style := None |}]>
           (edge_objs self).
Proof.
  intros Hf nodey edge.
  unfold add_child, create_edge, create_node, new, bind. simpl.
  fold nodey. fold edge.
  destruct (addChild_returns nodex nodey edge (children self)) as [c ->].
  eexists. split; [done|].
  assert (edge ∉ items self) as He by (apply fresh_not_in; [done|lia]).
  assert (nodey ∉ edge :: items self) as Hn.
  { intros [?|Hin]%elem_of_cons; [done|].
    by apply (fresh_not_in self Node (next_id self)) in Hin. }
  unfold addItem. simpl.
  rewrite (bool_decide_eq_false_2 _ He). simpl.
  rewrite (bool_decide_eq_false_2 _ Hn). done.
Qed.

Lemma add_children_counts dy self nodex :
  fresh self ->
  exists self',
    add_children addChild dy self nodex = (Return tt, self')
    /\ fresh self'
    /\ next_id self' = next_id self + 2 * dy
    /\ length (items self') = length (items self) + 2 * dy
    /\ length (List.filter isinstance_Edge (items self'))
       = length (List.filter isinstance_Edge (items self)) + dy
    /\ length (binder self') = length (binder self) + 9 * dy
    /\ (forall i, i ∈ items self -> i ∈ items self')
    /\ (forall i o, edge_objs self' !! i = Some o ->
          edge_objs self !! i = Some o
          \/ (next_id self <= i /\ segments o = 1%Z /\ node1 o = nodex)).
Proof.
  revert self. induction dy as [|dy IH]; intros self Hf.
  { exists self. simpl. repeat split; auto; lia. }
  destruct (add_child_of_new_node self nodex Hf)
    as (s1 & Hadd & Hitems & Hnext & Hbinder & Hobjs).
  assert (fresh s1) as Hf1.
  { intros i. rewrite Hitems, Hnext.
    intros [->|[->|Hin]%elem_of_cons]%elem_of_cons; simpl; [lia|lia|].
    apply Hf in Hin. lia. }
  destruct (IH s1 Hf1) as (s2 & Hrec & Hf2 & Hn2 & Hi2 & He2 & Hb2 & Hmono & Ho2).
  exists s2. simpl. unfold create_node in Hadd. simpl in Hadd.
  unfold create_node. simpl. rewrite Hadd.
  split; [done|]. split; [done|].
  split; [rewrite Hn2, Hnext; lia|].
  split; [rewrite Hi2, Hitems; simpl; lia|].
  split; [rewrite He2, Hitems; simpl; lia|].
  split; [rewrite Hb2, Hbinder, !length_app; simpl; lia|].
  split.
  - intros i Hin. apply Hmono. rewrite Hitems. do 2 (apply elem_of_cons; right). done.
  - intros i o Hio. destruct (Ho2 i o Hio) as [Hold|(Hge & Hseg & Hn1)].
    + rewrite Hobjs in Hold.
      destruct (decide (i = S (next_id self))) as [->|Hne].
      * rewrite lookup_insert_eq in Hold. injection Hold as <-. right.
        split; [lia|done].
      * rewrite lookup_insert_ne in Hold by done. by left.
    + right. split; [lia|done].
Qed.

Lemma addManyNodes_loop_S n m self :
  addManyNodes_loop addChild (S n) m self
  = let nodex := {| item_id := next_id self; item_class := Node |} in
    match add_children addChild m (addItem (snd (create_node self)) nodex) nodex with
    | (Return _, self) => addManyNodes_loop addChild n m self
    | (Raise e, self) => (Raise e, self)
    end.
Proof. reflexivity. Qed.

(** X15.  On a scene whose items were all created by it, and with an
    [addChild] that returns, [addManyNodes(dx, dy)] returns normally and
    adds [dx] nodes with [dy] children each: the scene has
    [dx * (1 + 2 * dy)] items more, of which [dx * dy] are edges, and
    [dx * (6 + 9 * dy)] bindings more; nothing that was in the scene is
    removed, and every edge object it creates has one segment.  Negative
    counts add nothing. *)
Theorem addManyNodes_counts self dx dy :
  fresh self ->
  let n := Z.to_nat dx in
  let m := Z.to_nat dy in
  exists self',
    addManyNodes addChild self dx dy = (Return tt, self')
    /\ fresh self'
    /\ length (items self') = length (items self) + n * (1 + 2 * m)
    /\ length (List.filter isinstance_Edge (items self'))
       = length (List.filter isinstance_Edge (items self)) + n * m
    /\ length (binder self') = length (binder self) + n * (6 + 9 * m)
    /\ (forall i, i ∈ items self -> i ∈ items self')
    /\ (forall i o, edge_objs self' !! i = Some o ->
          edge_objs self !! i = Some o \/ segments o = 1%Z).
Proof.
  intros Hf n m. unfold addManyNodes. fold n m. clearbody n m. clear dx dy.
  revert self Hf. induction n as [|n IH]; intros self Hf.
  { exists self. cbn [addManyNodes_loop]. repeat split; auto; lia. }
  rewrite addManyNodes_loop_S. cbv zeta.
  set (nodex := {| item_id := next_id self; item_class := Node |}).
  set (s0 := snd (create_node self)).
  assert (items s0 = items self /\ next_id s0 = S (next_id self)
          /\ binder s0 = binder self ++ node_bindings nodex
          /\ edge_objs s0 = edge_objs self) as (Hi0 & Hn0 & Hb0 & Ho0) by done.
  assert (nodex ∉ items s0) as Hnew.
  { rewrite Hi0. by apply fresh_not_in. }
  assert (addItem s0 nodex = with_items s0 (nodex :: items self)) as Hs1.
  { unfold addItem. by rewrite bool_decide_eq_false_2, Hi0. }
  assert (fresh (addItem s0 nodex)) as Hf1.
  { intros i. rewrite Hs1. cbn [items with_items next_id]. rewrite Hn0.
    intros [->|Hin]%elem_of_cons; [simpl; lia|]. apply Hf in Hin. lia. }
  destruct (add_children_counts m (addItem s0 nodex) nodex Hf1)
    as (s2 & Hrec & Hf2 & Hn2 & Hi2 & He2 & Hb2 & Hmono2 & Ho2).
  rewrite Hrec.
  destruct (IH s2 Hf2) as (s3 & Hrec3 & Hf3 & Hi3 & He3 & Hb3 & Hmono3 & Ho3).
  exists s3. split; [done|]. split; [done|].
  rewrite Hs1 in Hi2, He2, Hb2, Ho2, Hmono2.
  cbn [items with_items binder edge_objs next_id] in Hi2, He2, Hb2, Ho2, Hmono2.
  rewrite Hb0, length_app in Hb2. rewrite Ho0 in Ho2.
  change (length (node_bindings nodex)) with 6 in Hb2.
  change (List.filter isinstance_Edge (nodex :: items self))
    with (List.filter isinstance_Edge (items self)) in He2.
  cbn [length] in Hi2.
  split; [rewrite Hi3, Hi2; lia|].
  split; [rewrite He3, He2; lia|].
  split; [rewrite Hb3, Hb2; lia|].
  split.
  - intros i Hin. apply Hmono3, Hmono2. apply elem_of_cons. by right.
  - intros i o Hio. destruct (Ho3 i o Hio) as [Hold|?]; [|by right].
    destruct (Ho2 i o Hold) as [?|(_ & ? & _)]; [by left|by right].
Qed.

End AddManyNodesFacts.

Section AddManyNodesExamples.

Import GraphicsScene.

(** [addManyNodes(2, 3)] on the empty scene: 2 nodes with 3 children each
    are 14 items, 6 of them edges, and 66 bindings. *)
Lemma addManyNodes_counts_witness :
  exists self',
    addManyNodes Vertex_addChild Sample.scene 2 3 = (Return tt, self')
    /\ length (items self') = 14
    /\ length (List.filter isinstance_Edge (items self')) = 6
    /\ length (binder self') = 66.
Proof.
  destruct (addManyNodes_counts Vertex_addChild
              ltac:(intros; eexists; reflexivity) Sample.scene 2 3)
    as (self' & Hrun & _ & Hitems & Hedges & Hbinder & _).
  - intros i Hi. by apply elem_of_nil in Hi.
  - exists self'. split; [exact Hrun|].
    split; [exact Hitems|]. split; [exact Hedges|exact Hbinder].
Defined.

End AddManyNodesExamples.

(** ** The prototype's highlight, beyond the claims *)

Section HighlightFacts.

Import Demo.

Lemma keeps_bind {A B} P (c : M A) (k : A -> M B) :
  keeps P c -> (forall a, keeps P (k a)) -> keeps P (bind c k).
Proof.
  intros Hc Hk s HP. unfold bind. specialize (Hc s HP).
  destruct (c s) as [[a|e] s1]; simpl in *; [by apply Hk|done].
Qed.

Lemma keeps_ret {A} P (a : A) : keeps P (ret a).
Proof. by intros s HP. Qed.

Lemma keeps_get P : keeps P get.
Proof. by intros s HP. Qed.

Lemma keeps_not_None {A} P (o : option A) : keeps P (not_None o).
Proof. destruct o; by intros s HP. Qed.

Lemma keeps_get_parentItem P item : keeps P (get_parentItem item).
Proof. by intros s HP. Qed.

Lemma keeps_get_label P item : keeps P (get_label item).
Proof. intros s HP. unfold get_label. by destruct (label s !! item_id item). Qed.

Lemma keeps_edges_getitem P v item : keeps P (edges_getitem v item).
Proof. intros s HP. unfold edges_getitem. by destruct (_ !! item_id item). Qed.

Lemma keeps_when P b c : keeps P c -> keeps P (when b c).
Proof. intros Hc. destruct b; [done|apply keeps_ret]. Qed.

Lemma keeps_get_item_edge P item : keeps P (get_item_edge item).
Proof.
  destruct item as [item|]; [|apply keeps_ret]. simpl.
  apply keeps_bind.
  - destruct (isinstance_Label_or_LabelNew item); [|apply keeps_ret].
    apply keeps_bind; [apply keeps_get_parentItem|intros; apply keeps_not_None].
  - intros i. apply keeps_bind; [apply keeps_get_parentItem|].
    intros [p|]; [|apply keeps_ret].
    destruct (isinstance_Vertex p); [|apply keeps_ret].
    apply keeps_bind; [apply keeps_edges_getitem|intros; apply keeps_ret].
Qed.

Lemma find_filter_other {A} (p q : A -> bool) (l : list A) :
  (forall x, q x = true -> p x = true) ->
  List.find q (List.filter p l) = List.find q l.
Proof.
  intros Hpq. induction l as [|x l IH]; [done|]. simpl.
  destruct (p x) eqn:Hp; simpl.
  - by destruct (q x).
  - destruct (q x) eqn:Hq; [|done]. apply Hpq in Hq. congruence.
Qed.

(** Reading a flag after [item.f = state]. *)
Lemma flag_set_flag item f state s x g :
  flag (snd (set_flag item f state s)) x g
  = if bool_decide ((item_id item, f) = (item_id x, g)) then state else flag s x g.
Proof.
  unfold flag, set_flag. simpl.
  case_bool_decide as Heq; [done|].
  - rewrite find_filter_other; [done|].
    intros [k v]. simpl. intros Hk%bool_decide_eq_true.
    apply negb_true_iff, bool_decide_eq_false. congruence.
Qed.

Lemma set_hovered_item_split item s :
  set_hovered_item item s = bind (hover_steps item) (fun _ => hover_tail item) s.
Proof.
  unfold set_hovered_item, hover_steps, hover_tail, bind, get. simpl.
  destruct (when _ _ s) as [[[]|e] s1]; [|done]. simpl.
  destruct (when _ _ _) as [[[]|e] s2]; done.
Qed.

Lemma set_pressed_item_split item s :
  set_pressed_item item s = bind (press_steps item) (fun _ => press_tail item) s.
Proof.
  unfold set_pressed_item, press_steps, press_tail, bind, get. simpl.
  destruct (when _ _ s) as [[[]|e] s1]; [|done]. simpl.
  destruct (when _ _ _) as [[[]|e] s2]; done.
Qed.

(** What [set_highlighted_edge] does, step by step; it never raises. *)
Lemma set_highlighted_edge_steps edge s :
  set_highlighted_edge edge s
  = let s1 := match lighlighted_edge s with
              | Some old => snd (set_flag old state_highlighted false s)
              | None => s
              end in
    let s2 := snd (set_lighlighted edge s1) in
    let s3 := match edge with
              | Some e => snd (set_flag e state_highlighted true s2)
              | None => s2
              end in
    (Return tt, s3).
Proof.
  unfold set_highlighted_edge, _set_highlighted_edge_state, bind, get, when.
  destruct (lighlighted_edge s) as [old|] eqn:Hold, edge as [e|]; simpl;
    rewrite ?Hold; reflexivity.
Qed.

Lemma keeps_one_highlight_set_highlighted_edge edge :
  keeps one_highlight (set_highlighted_edge edge).
Proof.
  intros s H. rewrite set_highlighted_edge_steps. cbv zeta. cbn [snd].
  set (s1 := match lighlighted_edge s with
             | Some old => snd (set_flag old state_highlighted false s)
             | None => s
             end).
  assert (forall x, flag s1 x state_highlighted = false) as Hoff.
  { intros x. unfold s1. destruct (lighlighted_edge s) as [old|] eqn:Hold.
    - rewrite flag_set_flag. case_bool_decide as Heq; [done|].
      destruct (flag s x state_highlighted) eqn:Hx; [|done].
      apply H in Hx. rewrite Hold in Hx. simpl in Hx. congruence.
    - destruct (flag s x state_highlighted) eqn:Hx; [|done].
      apply H in Hx. by rewrite Hold in Hx. }
  destruct edge as [e|]; intros x.
  - rewrite flag_set_flag. case_bool_decide as Heq.
    + intros _. simpl. congruence.
    + change (flag (snd (set_lighlighted (Some e) s1)) x state_highlighted)
        with (flag s1 x state_highlighted). by rewrite Hoff.
  - change (flag (snd (set_lighlighted None s1)) x state_highlighted)
      with (flag s1 x state_highlighted). by rewrite Hoff.
Qed.

(** After [set_highlighted_edge(edge)] the scene holds [edge] as
    highlighted and its flag is on; the hovered and the pressed item and the
    item tree are untouched. *)
Lemma set_highlighted_edge_result edge s :
  let r := set_highlighted_edge edge s in
  fst r = Return tt
  /\ lighlighted_edge (snd r) = edge
  /\ (forall e, edge = Some e -> flag (snd r) e state_highlighted = true)
  /\ hovered_item (snd r) = hovered_item s
  /\ pressed_item (snd r) = pressed_item s
  /\ same_tree s (snd r).
Proof.
  rewrite set_highlighted_edge_steps. cbv zeta. cbn [fst snd].
  split; [done|].
  destruct (lighlighted_edge s) as [old|], edge as [e|]; simpl;
    (split; [done|]); (split; [|done]); intros e' [= <-] || intros e' [=].
  - unfold flag. simpl. by rewrite bool_decide_eq_true_2.
  - unfold flag. simpl. by rewrite bool_decide_eq_true_2.
Qed.

(** Properties that the hover and press flags, [hovered_item] and
    [pressed_item] play no part in. *)
Section Frames.

Variable P : t -> Prop.

Hypothesis P_set_flag :
  forall item f state, f <> state_highlighted -> keeps P (set_flag item f state).

Lemma keeps_set_item_state item f state :
  f <> state_highlighted -> keeps P (_set_item_state item f state).
Proof.
  intros Hf. unfold _set_item_state.
  apply keeps_bind; [apply keeps_not_None|]. intros i.
  apply keeps_bind.
  { apply keeps_when, keeps_bind; [apply keeps_get_parentItem|]. intros p.
    apply keeps_bind; [apply keeps_not_None|].
    intros. by apply P_set_flag. }
  intros _. apply keeps_bind.
  { apply keeps_when, keeps_bind; [apply keeps_get_label|].
    intros. by apply P_set_flag. }
  intros _. by apply P_set_flag.
Qed.

Lemma keeps_hover_steps item :
  (forall i, keeps P (set_hovered i)) -> keeps P (hover_steps item).
Proof.
  intros Hh. apply keeps_bind; [apply keeps_get|]. intros s.
  apply keeps_bind.
  { apply keeps_when, keeps_bind; [apply keeps_get|].
    intros. by apply keeps_set_item_state. }
  intros _. apply keeps_bind; [apply Hh|].
  intros _. apply keeps_when, keeps_bind; [apply keeps_get|].
  intros. by apply keeps_set_item_state.
Qed.

Lemma keeps_press_steps item :
  (forall i, keeps P (set_pressed i)) -> keeps P (press_steps item).
Proof.
  intros Hh. apply keeps_bind; [apply keeps_get|]. intros s.
  apply keeps_bind.
  { apply keeps_when, keeps_bind; [apply keeps_get|].
    intros. by apply keeps_set_item_state. }
  intros _. apply keeps_bind; [apply Hh|].
  intros _. apply keeps_when, keeps_bind; [apply keeps_get|].
  intros. by apply keeps_set_item_state.
Qed.

End Frames.

Lemma keeps_split {A B} P (c : M A) (k : A -> M B) (c' : M B) :
  (forall s, c' s = bind c k s) ->
  keeps P c -> (forall a, keeps P (k a)) -> keeps P c'.
Proof. intros Heq Hc Hk s HP. rewrite Heq. by apply keeps_bind. Qed.

Lemma one_highlight_set_flag item f state :
  f <> state_highlighted -> keeps one_highlight (set_flag item f state).
Proof.
  intros Hf s H e. rewrite flag_set_flag, bool_decide_eq_false_2 by congruence.
  apply H.
Qed.

Lemma keeps_one_highlight_hover_tail item : keeps one_highlight (hover_tail item).
Proof.
  apply keeps_bind; [apply keeps_get|]. intros s.
  apply keeps_when, keeps_bind; [apply keeps_get_item_edge|].
  intros. apply keeps_one_highlight_set_highlighted_edge.
Qed.

Lemma keeps_one_highlight_set_hovered_item item :
  keeps one_highlight (set_hovered_item item).
Proof.
  eapply keeps_split; [apply set_hovered_item_split| |].
  - apply keeps_hover_steps; [apply one_highlight_set_flag|]. by intros i s H.
  - intros ?. apply keeps_one_highlight_hover_tail.
Qed.

Lemma keeps_one_highlight_set_pressed_item item :
  keeps one_highlight (set_pressed_item item).
Proof.
  eapply keeps_split; [apply set_pressed_item_split| |].
  - apply keeps_press_steps; [apply one_highlight_set_flag|]. by intros i s H.
  - intros ?. apply (keeps_bind one_highlight); [apply keeps_get_item_edge|].
    intros. apply keeps_one_highlight_set_highlighted_edge.
Qed.

Lemma keeps_customHoverEvent P under :
  (forall item, keeps P (set_hovered_item item)) -> keeps P (customHoverEvent under).
Proof.
  intros H. induction under as [|item under IH]; simpl; [apply H|].
  apply keeps_bind; [apply keeps_get|]. intros s.
  case_bool_decide; [apply keeps_ret|].
  destruct (interactive item); [apply H|apply IH].
Qed.

Lemma keeps_press_loop P under :
  (forall item, keeps P (set_pressed_item item)) -> keeps P (press_loop under).
Proof.
  intros H. induction under as [|item under IH]; simpl; [apply keeps_ret|].
  destruct (interactive item); [apply H|apply IH].
Qed.

Lemma keeps_one_highlight_event e : keeps one_highlight (event e).
Proof.
  destruct e as [under|button under|button|]; simpl.
  - apply keeps_customHoverEvent, keeps_one_highlight_set_hovered_item.
  - unfold mousePressEvent. case_bool_decide; [apply keeps_ret|].
    apply keeps_press_loop, keeps_one_highlight_set_pressed_item.
  - apply keeps_when, keeps_one_highlight_set_pressed_item.
  - apply keeps_one_highlight_set_hovered_item.
Qed.

Lemma keeps_one_highlight_run es : keeps one_highlight (run es).
Proof.
  induction es as [|ev es IH]; simpl; [apply keeps_ret|].
  apply keeps_bind; [apply keeps_one_highlight_event|]. intros _. apply IH.
Qed.

(** X16.  At most one edge is highlighted, in every scene the prototype
    reaches: if the highlight flag is on for no edge but the one the scene
    holds as highlighted, the same is true after every sequence of mouse
    moves, presses, releases and leaves, also when a handler raised on the
    way. *)
Theorem at_most_one_highlighted s es e :
  one_highlight s ->
  flag (snd (run es s)) e state_highlighted = true ->
  item_id <$> lighlighted_edge (snd (run es s)) = Some (item_id e).
Proof.
  intros H. revert e. by apply (keeps_one_highlight_run es s).
Qed.

(** X17.  While an item is pressed, hovering does not move the highlight:
    a mouse move over any items and a leave of the scene keep the pressed
    item, the highlighted edge and every highlight flag as they are, also
    when the handler raises. *)
Theorem pressed_item_pins_highlight s p e :
  pressed_item s = Some p ->
  e = GraphicsSceneLeave \/ (exists under, e = GraphicsSceneMouseMove under) ->
  let s' := snd (event e s) in
  pressed_item s' = Some p
  /\ lighlighted_edge s' = lighlighted_edge s
  /\ forall x, flag s' x state_highlighted = flag s x state_highlighted.
Proof.
  intros Hp He s'.
  set (P := fun s1 => pressed_item s1 = Some p /\ same_highlight s s1).
  assert (forall item, keeps P (set_hovered_item item)) as Hset.
  { intros item. eapply keeps_split; [apply set_hovered_item_split| |].
    - apply keeps_hover_steps.
      + intros i f state Hf s1 [H1 [H2 H3]]. split; [done|]. split; [done|].
        intros x. rewrite flag_set_flag, bool_decide_eq_false_2 by congruence.
        apply H3.
      + by intros i s1 H.
    - intros ? s1 [H1 H2]. unfold hover_tail, bind, get. simpl.
      rewrite H1. by rewrite bool_decide_eq_false_2. }
  assert (P s') as (H1 & H2 & H3).
  { unfold s'. destruct He as [->|[under ->]]; simpl.
    - by apply Hset.
    - by apply keeps_customHoverEvent. }
  done.
Qed.

Lemma reads_tree_bind {A B} (c : M A) (k : A -> M B) :
  reads_tree c -> (forall a, reads_tree (k a)) -> reads_tree (bind c k).
Proof.
  intros Hc Hk s s1 Htree. unfold bind.
  destruct (Hc s s1 Htree) as (H1 & H2 & H3).
  destruct (c s) as [r s'], (c s1) as [r1 s1']. simpl in *. subst.
  destruct r as [a|e]; [|done]. by apply Hk.
Qed.

Lemma reads_tree_ret {A} (a : A) : reads_tree (ret a).
Proof. by intros s s1 H. Qed.

Lemma reads_tree_not_None {A} (o : option A) : reads_tree (not_None o).
Proof. destruct o; by intros s s1 H. Qed.

Lemma reads_tree_get_parentItem item : reads_tree (get_parentItem item).
Proof. intros s s1 (Hp & _). unfold get_parentItem. simpl. by rewrite Hp. Qed.

Lemma reads_tree_edges_getitem v item : reads_tree (edges_getitem v item).
Proof.
  intros s s1 (_ & He & _). unfold edges_getitem. rewrite He.
  by destruct (_ !! item_id item).
Qed.

Lemma reads_tree_get_item_edge item : reads_tree (get_item_edge item).
Proof.
  destruct item as [item|]; [|apply reads_tree_ret]. simpl.
  apply reads_tree_bind.
  - destruct (isinstance_Label_or_LabelNew item); [|apply reads_tree_ret].
    apply reads_tree_bind; [apply reads_tree_get_parentItem|].
    intros. apply reads_tree_not_None.
  - intros i. apply reads_tree_bind; [apply reads_tree_get_parentItem|].
    intros [p|]; [|apply reads_tree_ret].
    destruct (isinstance_Vertex p); [|apply reads_tree_ret].
    apply reads_tree_bind; [apply reads_tree_edges_getitem|].
    intros. apply reads_tree_ret.
Qed.

Lemma get_item_edge_same_tree s s1 item :
  same_tree s s1 -> fst (get_item_edge item s1) = fst (get_item_edge item s).
Proof. intros H. by apply reads_tree_get_item_edge. Qed.

Lemma get_item_edge_pure item s : snd (get_item_edge item s) = s.
Proof. by apply (keeps_get_item_edge (fun s1 => s1 = s)). Qed.

Lemma keeps_same_tree_set_flag s0 item f state : keeps (same_tree s0) (set_flag item f state).
Proof. by intros s H. Qed.

Lemma hover_steps_hovered item s :
  fst (hover_steps item s) = Return tt ->
  hovered_item (snd (hover_steps item s)) = item.
Proof.
  unfold hover_steps, bind, get. simpl.
  destruct (when _ _ s) as [[[]|e] s0]; [|discriminate]. simpl.
  intros _.
  assert (keeps (fun s1 => hovered_item s1 = item)
            (when (bool_decide (item <> None)) (_set_hovered_item_state true))) as H.
  { apply keeps_when, keeps_bind; [apply keeps_get|]. intros.
    apply keeps_set_item_state; [|done]. by intros i f st Hf s1 H1. }
  specialize (H (snd (set_hovered item s0)) eq_refl).
  simpl in H. by destruct (when _ _ _) as [[[]|e] s2].
Qed.

Lemma press_steps_pressed item s :
  fst (press_steps item s) = Return tt ->
  pressed_item (snd (press_steps item s)) = item.
Proof.
  unfold press_steps, bind, get. simpl.
  destruct (when _ _ s) as [[[]|e] s0]; [|discriminate]. simpl.
  intros _.
  assert (keeps (fun s1 => pressed_item s1 = item)
            (when (bool_decide (item <> None)) (_set_pressed_item_state true))) as H.
  { apply keeps_when, keeps_bind; [apply keeps_get|]. intros.
    apply keeps_set_item_state; [|done]. by intros i f st Hf s1 H1. }
  specialize (H (snd (set_pressed item s0)) eq_refl).
  simpl in H. by destruct (when _ _ _) as [[[]|e] s2].
Qed.

(** What [get_item_edge] and then [set_highlighted_edge] leave. *)
Lemma press_tail_result item s0 s1 :
  same_tree s0 s1 ->
  fst (press_tail item s1) = Return tt ->
  let s' := snd (press_tail item s1) in
  fst (get_item_edge item s0) = Return (lighlighted_edge s')
  /\ (forall e, lighlighted_edge s' = Some e -> flag s' e state_highlighted = true)
  /\ hovered_item s' = hovered_item s1
  /\ pressed_item s' = pressed_item s1.
Proof.
  intros Htree. unfold press_tail, bind.
  pose proof (get_item_edge_same_tree s0 s1 item Htree) as Hfst.
  pose proof (get_item_edge_pure item s1) as Hsnd.
  destruct (get_item_edge item s1) as [[edge|e] s2]; [|discriminate].
  simpl in Hfst, Hsnd. subst s2. intros _.
  destruct (set_highlighted_edge_result edge s1) as (_ & HL & Hflag & Hh & Hp & _).
  cbv zeta. rewrite HL. split; [done|]. split; [|done].
  intros e He. by apply Hflag.
Qed.

Lemma hover_sets_highlight_aux s item :
  pressed_item s = None ->
  fst (set_hovered_item item s) = Return tt ->
  hovered_item (snd (set_hovered_item item s)) = item
  /\ fst (get_item_edge item s)
     = Return (lighlighted_edge (snd (set_hovered_item item s))).
Proof.
  intros Hp. rewrite set_hovered_item_split. unfold bind at 1 2 3.
  pose proof (hover_steps_hovered item s) as Hh.
  assert (pressed_item (snd (hover_steps item s)) = None) as Hp1.
  { apply (keeps_hover_steps (fun s1 => pressed_item s1 = None)); try done.
    - by intros i f st Hf s1 H1.
    - by intros i s1 H1. }
  assert (same_tree s (snd (hover_steps item s))) as Htree.
  { apply (keeps_hover_steps (same_tree s)); try done.
    - by intros i f st Hf s1 H1.
    - by intros i s1 H1. }
  destruct (hover_steps item s) as [[[]|e] s1]; [|discriminate].
  simpl in Hh, Hp1, Htree. specialize (Hh eq_refl).
  assert (hover_tail item s1 = press_tail item s1) as ->.
  { unfold hover_tail, bind, get. simpl. by rewrite Hp1. }
  intros Hret.
  destruct (press_tail_result item s s1 Htree Hret) as (H1 & H2 & H3 & H4).
  by rewrite H3.
Qed.

(** X18.  With nothing pressed, a [set_hovered_item(item)] that returns
    leaves [item] as the hovered item and the edge [get_item_edge(item)]
    gives as the highlighted edge, with its highlight flag on: the edge to
    the parent when the item, or the owner of a label, is a child item of a
    vertex, and no edge otherwise. *)
Theorem hover_sets_highlight s item :
  pressed_item s = None ->
  fst (set_hovered_item item s) = Return tt ->
  let s' := snd (set_hovered_item item s) in
  hovered_item s' = item
  /\ pressed_item s' = None
  /\ fst (get_item_edge item s) = Return (lighlighted_edge s')
  /\ forall e, lighlighted_edge s' = Some e -> flag s' e state_highlighted = true.
Proof.
  intros Hp. rewrite set_hovered_item_split. unfold bind at 1 2.
  pose proof (hover_steps_hovered item s) as Hh.
  assert (pressed_item (snd (hover_steps item s)) = None) as Hp1.
  { apply (keeps_hover_steps (fun s1 => pressed_item s1 = None)); try done.
    - by intros i f st Hf s1 H1.
    - by intros i s1 H1. }
  assert (same_tree s (snd (hover_steps item s))) as Htree.
  { apply (keeps_hover_steps (same_tree s)); try done.
    - by intros i f st Hf s1 H1.
    - by intros i s1 H1. }
  destruct (hover_steps item s) as [[[]|e] s1]; [|discriminate].
  simpl in Hh, Hp1, Htree. specialize (Hh eq_refl).
  assert (hover_tail item s1 = press_tail item s1) as ->.
  { unfold hover_tail, bind, get. simpl. by rewrite Hp1. }
  intros Hret.
  destruct (press_tail_result item s s1 Htree Hret) as (H1 & H2 & H3 & H4).
  cbv zeta. rewrite H3, H4. done.
Qed.

(** X19.  A [set_pressed_item(item)] that returns, for a press as for the
    release (where [item] is [None]), leaves [item] as the pressed item and
    the edge [get_item_edge(item)] gives as the highlighted edge, with its
    highlight flag on; the hovered item is untouched and plays no part: after
    a release no edge is highlighted. *)
Theorem press_sets_highlight s item :
  fst (set_pressed_item item s) = Return tt ->
  let s' := snd (set_pressed_item item s) in
  pressed_item s' = item
  /\ hovered_item s' = hovered_item s
  /\ fst (get_item_edge item s) = Return (lighlighted_edge s')
  /\ (forall e, lighlighted_edge s' = Some e -> flag s' e state_highlighted = true)
  /\ (item = None -> lighlighted_edge s' = None).
Proof.
  rewrite set_pressed_item_split. unfold bind at 1 2.
  pose proof (press_steps_pressed item s) as Hp.
  assert (hovered_item (snd (press_steps item s)) = hovered_item s) as Hh.
  { apply (keeps_press_steps (fun s1 => hovered_item s1 = hovered_item s)); try done.
    - by intros i f st Hf s1 H1.
    - by intros i s1 H1. }
  assert (same_tree s (snd (press_steps item s))) as Htree.
  { apply (keeps_press_steps (same_tree s)); try done.
    - by intros i f st Hf s1 H1.
    - by intros i s1 H1. }
  destruct (press_steps item s) as [[[]|e] s1]; [|discriminate].
  simpl in Hh, Hp, Htree. specialize (Hp eq_refl).
  intros Hret.
  destruct (press_tail_result item s s1 Htree Hret) as (H1 & H2 & H3 & H4).
  cbv zeta. rewrite H3, H4.
  split; [done|]. split; [done|]. split; [done|]. split; [done|].
  intros ->. simpl in H1. congruence.
Qed.

Lemma keeps_hover_tail_fields item s :
  hovered_item (snd (hover_tail item s)) = hovered_item s
  /\ pressed_item (snd (hover_tail item s)) = pressed_item s.
Proof.
  unfold hover_tail, bind, get. simpl.
  destruct (bool_decide (pressed_item s = None)); [|done]. simpl.
  pose proof (get_item_edge_pure item s) as Hpure.
  destruct (get_item_edge item s) as [[edge|e] s2]; simpl in Hpure; subst s2;
    [|done].
  destruct (set_highlighted_edge_result edge s) as (_ & _ & _ & Hh & Hp & _).
  done.
Qed.

(** After a [set_hovered_item(item)] that returns, [item] is hovered and the
    pressed item is what it was. *)
Lemma set_hovered_item_fields item s :
  fst (set_hovered_item item s) = Return tt ->
  hovered_item (snd (set_hovered_item item s)) = item
  /\ pressed_item (snd (set_hovered_item item s)) = pressed_item s.
Proof.
  rewrite set_hovered_item_split. unfold bind at 1 2 3.
  pose proof (hover_steps_hovered item s) as Hh.
  assert (pressed_item (snd (hover_steps item s)) = pressed_item s) as Hp1.
  { apply (keeps_hover_steps (fun s1 => pressed_item s1 = pressed_item s)); try done.
    - by intros i f st Hf s1 H1.
    - by intros i s1 H1. }
  destruct (hover_steps item s) as [[[]|e] s1]; [|discriminate].
  simpl in Hh, Hp1. specialize (Hh eq_refl). intros _.
  destruct (keeps_hover_tail_fields item s1) as [H1 H2]. by rewrite H1, H2.
Qed.

(** With nothing hovered, and nothing highlighted unless an item is
    pressed, [set_hovered_item(None)] changes nothing. *)
Lemma set_hovered_item_None_noop s :
  hovered_item s = None ->
  (pressed_item s = None -> lighlighted_edge s = None) ->
  set_hovered_item None s = (Return tt, s).
Proof.
  intros Hh HL. unfold set_hovered_item, bind, get. simpl. rewrite Hh. simpl.
  destruct s as [h p l pi ed lb fl]. simpl in *. subst h.
  destruct p as [p|]; simpl; [done|].
  rewrite set_highlighted_edge_steps. simpl. by rewrite (HL eq_refl).
Qed.

Lemma customHoverEvent_again under s s1 :
  customHoverEvent under s = (Return tt, s1) ->
  customHoverEvent under s1 = (Return tt, s1).
Proof.
  revert s s1. induction under as [|item under IH]; intros s s1 Hrun.
  - simpl in *.
    assert (fst (set_hovered_item None s) = Return tt) as Hret by (by rewrite Hrun).
    destruct (set_hovered_item_fields None s Hret) as [Hh Hp].
    rewrite Hrun in Hh, Hp. simpl in Hh, Hp.
    apply set_hovered_item_None_noop; [done|].
    intros Hnone. rewrite Hp in Hnone.
    destruct (hover_sets_highlight_aux s None Hnone Hret) as (_ & HL).
    rewrite Hrun in HL. simpl in HL. congruence.
  - simpl in *. unfold bind, get in *. simpl in *.
    case_bool_decide as Hsame.
    + injection Hrun as <-. by rewrite bool_decide_eq_true_2.
    + destruct (interactive item) eqn:Hint.
      * assert (fst (set_hovered_item (Some item) s) = Return tt) as Hret
          by (by rewrite Hrun).
        destruct (set_hovered_item_fields (Some item) s Hret) as [Hh _].
        rewrite Hrun in Hh. simpl in Hh. by rewrite bool_decide_eq_true_2.
      * case_bool_decide; [done|]. by eapply IH.
Qed.

(** X20.  Repeating a mouse move changes nothing: when [customHoverEvent]
    has returned for the items under the pointer, calling it again for the
    same items returns and leaves the scene, flags included, exactly as it
    is. *)
Theorem customHoverEvent_idempotent under s :
  fst (customHoverEvent under s) = Return tt ->
  customHoverEvent under (snd (customHoverEvent under s))
  = (Return tt, snd (customHoverEvent under s)).
Proof.
  intros Hret. apply (customHoverEvent_again under s).
  destruct (customHoverEvent under s) as [r s1]. simpl in Hret. by subst.
Qed.

End HighlightFacts.

Section HighlightExamples.

Import Demo.

(** After the move onto the child the highlight flag of the edge to the
    parent is on, and that edge is the highlighted one. *)
Lemma at_most_one_highlighted_witness :
  item_id <$> lighlighted_edge
                (snd (run (take 1 Sample.hover_press_release) Sample.demo))
  = Some (item_id Sample.tree_edge).
Proof.
  apply (at_most_one_highlighted Sample.demo
           (take 1 Sample.hover_press_release) Sample.tree_edge).
  - intros e He. discriminate He.
  - reflexivity.
Defined.

(** While the child is pressed, a move of the pointer onto the parent keeps
    the edge of the child highlighted. *)
Lemma pressed_item_pins_highlight_witness :
  let s := snd (run (take 2 Sample.hover_press_release) Sample.demo) in
  let s' := snd (event (GraphicsSceneMouseMove [Sample.parent]) s) in
  hovered_item s' = Some Sample.parent
  /\ pressed_item s' = Some Sample.child
  /\ lighlighted_edge s' = Some Sample.tree_edge.
Proof.
  intros s s'.
  destruct (pressed_item_pins_highlight s Sample.child
              (GraphicsSceneMouseMove [Sample.parent]) eq_refl)
    as (H1 & H2 & _).
  - right. by eexists.
  - split; [reflexivity|]. split; [exact H1|]. unfold s'. rewrite H2. reflexivity.
Defined.

(** Hovering the child in the sample scene highlights the edge to the
    parent. *)
Lemma hover_sets_highlight_witness :
  let s' := snd (set_hovered_item (Some Sample.child) Sample.demo) in
  hovered_item s' = Some Sample.child
  /\ lighlighted_edge s' = Some Sample.tree_edge.
Proof.
  intros s'.
  destruct (hover_sets_highlight Sample.demo (Some Sample.child) eq_refl eq_refl)
    as (H1 & _ & H2 & _).
  split; [exact H1|].
  symmetry.
  apply (f_equal (fun r => match r with Return o => o | Raise _ => None end)) in H2.
  exact H2.
Defined.

(** Pressing the child in the sample scene highlights the edge to the
    parent, and releasing takes the highlight away. *)
Lemma press_sets_highlight_witness :
  let s1 := snd (set_pressed_item (Some Sample.child) Sample.demo) in
  let s2 := snd (set_pressed_item None s1) in
  pressed_item s1 = Some Sample.child
  /\ pressed_item s2 = None
  /\ lighlighted_edge s2 = None.
Proof.
  intros s1 s2.
  destruct (press_sets_highlight Sample.demo (Some Sample.child) eq_refl)
    as (H1 & _).
  destruct (press_sets_highlight s1 None eq_refl) as (H2 & _ & _ & _ & H3).
  split; [exact H1|]. split; [exact H2|]. by apply H3.
Defined.

(** The pointer moves onto the child of the sample scene and then moves
    again without leaving it. *)
Lemma customHoverEvent_idempotent_witness :
  let s1 := snd (customHoverEvent [Sample.child; Sample.parent] Sample.demo) in
  hovered_item s1 = Some Sample.child
  /\ customHoverEvent [Sample.child; Sample.parent] s1 = (Return tt, s1).
Proof.
  intros s1. split; [reflexivity|].
  apply (customHoverEvent_idempotent [Sample.child; Sample.parent] Sample.demo).
  reflexivity.
Defined.

End HighlightExamples.
